(** * RAG mentor front end: session and conversation-store logic

    A shallow embedding of the state logic of [frontend/app/page.tsx]
    (the [MentorApp] component): the load-time sanitation of the persisted
    conversations, the typing-effect timer [streamExplanation], and the
    handlers [handleAsk], [handleNewConversation] and
    [handleDeleteConversation].

    JavaScript strings are sequences of UTF-16 code units, so they are
    modelled as [list N]; [slice], [trim] and [length] then work on code
    units exactly as in the source. *)

From Stdlib Require Import NArith ZArith Ascii String.
From Stdlib Require DecimalString QArith.
From stdpp Require Import base decidable option list gmap.

Set Warnings "-register-all".
Open Scope N_scope.

(** ** JavaScript strings *)

Abbreviation jsstring := (list N) (only parsing).

(** A literal of the source, as code units. *)
Definition js (s : string) : jsstring :=
  map N_of_ascii (list_ascii_of_string s).

(** [s ? ... : ...], [!s], [s || d]: a string is truthy iff it is not empty. *)
Definition truthy (s : jsstring) : bool :=
  match s with [] => false | _ => true end.

(** [s || null] and [s || undefined]. *)
Definition or_null (s : jsstring) : option jsstring :=
  if truthy s then Some s else None.

(** Truthiness of a [string | null] value. *)
Definition truthy_opt (o : option jsstring) : bool :=
  match o with Some s => truthy s | None => false end.

(** [s.slice(0, n)] for [n >= 0]: the end index is clamped to the length. *)
Definition slice0 (s : jsstring) (n : nat) : jsstring := take n s.

(** The code units [String.prototype.trim] strips: WhiteSpace and
    LineTerminator of ECMA-262. *)
Definition is_ws (c : N) : bool :=
  (c =? 9) || (c =? 10) || (c =? 11) || (c =? 12) || (c =? 13) || (c =? 32)
  || (c =? 160) || (c =? 5760) || ((8192 <=? c) && (c <=? 8202))
  || (c =? 8232) || (c =? 8233) || (c =? 8239) || (c =? 8287)
  || (c =? 12288) || (c =? 65279).

Fixpoint trimStart (s : jsstring) : jsstring :=
  match s with
  | [] => []
  | c :: s' => if is_ws c then trimStart s' else s
  end.

Definition trimEnd (s : jsstring) : jsstring := rev (trimStart (rev s)).

Definition trim (s : jsstring) : jsstring := trimEnd (trimStart s).

(** ** JavaScript numbers

    A number as [JSON.parse] can produce it and as the state can hold it:
    a finite value or, for a literal out of range such as [1e400], an
    infinity ([NaN] is never produced by [JSON.parse] nor by
    [Date.now()]). The code copies numbers without computing on them, so
    a finite double is carried as the rational it denotes; [-0] is not
    told apart from [0]. *)

Inductive jsnum : Type :=
| Finite (q : QArith_base.Q)
| Infinite (negative : bool).

(** An integer, such as the value of [Date.now()]. *)
Definition num_of_Z (z : Z) : jsnum := Finite (QArith_base.inject_Z z).

(** ** Values produced by [JSON.parse] *)

Inductive json : Type :=
| JNull
| JBool (b : bool)
| JNum (n : jsnum)
| JStr (s : jsstring)
| JArr (items : list json)
| JObj (fields : list (jsstring * json)).

(** Own property of a parsed object; for a repeated key the last member
    wins, as in [JSON.parse]. [None] is [undefined]. *)
Fixpoint lookup_field (k : jsstring) (fields : list (jsstring * json))
  : option json :=
  match fields with
  | [] => None
  | (k', v) :: rest =>
      match lookup_field k rest with
      | Some v' => Some v'
      | None => if decide (k = k') then Some v else None
      end
  end.

(** [c.k] for one of the keys read by the sanitation. Reading a property
    of [null] throws a [TypeError] (outer [None]); on every other
    non-object value these keys are [undefined]. *)
Definition get_prop (c : json) (k : jsstring) : option (option json) :=
  match c with
  | JNull => None
  | JObj fields => Some (lookup_field k fields)
  | _ => Some None
  end.

(** ** Data model *)

Inductive SkillLevel := beginner | intermediate | pro.

Record Step := { step_title : jsstring; step_detail : jsstring }.

Record AskResponse := {
  tldr : jsstring;
  explanation : jsstring;
  steps : option (list Step);
  fixed_code : option jsstring;
  diff : option jsstring;
  context_used : option jsstring;
  conversation_id : option jsstring
}.

Record ChatTurn := {
  turn_id : jsstring;
  turn_question : jsstring;
  turn_code : option jsstring;
  turn_errorMsg : option jsstring;
  turn_skill : SkillLevel;
  turn_response : AskResponse
}.

(** [SavedConversation]; the turns read back from storage are taken as
    they are ([c.turns] is not inspected), hence the parameter. *)
Record SavedConversation (T : Type) := {
  conv_id : jsstring;
  conv_conversationId : option jsstring;
  conv_title : jsstring;
  conv_createdAt : jsnum;
  conv_turns : list T
}.
Arguments conv_id {T} _.
Arguments conv_conversationId {T} _.
Arguments conv_title {T} _.
Arguments conv_createdAt {T} _.
Arguments conv_turns {T} _.

(** ** Loading the persisted conversations

    The initializer of the [conversations] state. *)

Section Load.

(** [JSON.parse]; [None] when it throws. *)
Variable JSON_parse : jsstring → option json.
(** The [k]-th identifier handed out by [crypto.randomUUID()] (or by the
    timestamp-and-random fallback) during the pass. *)
Variable randomUUID : nat → jsstring.
(** [Date.now()] while the [i]-th record is sanitized. *)
Variable Date_now : nat → Z.

(** State of one pass: [seenIds] and the number of ids drawn so far. *)
Definition pass : Type := gset (list N) * nat.

(** The body of [parsed.map((c) => ...)] for the record at index [i].
    [None]: the body throws. *)
Definition sanitize (i : nat) (c : json) (p : pass)
  : option (SavedConversation json * pass) :=
  let '(seenIds, k) := p in
  c_id ← get_prop c (js "id");
  let id0 : jsstring :=
    match c_id with
    | Some (JStr s) => if bool_decide (0 < length s)%nat then s else []
    | _ => []
    end in
  let '(id, k) :=
    if negb (truthy id0) || bool_decide (id0 ∈ seenIds)
    then (randomUUID k, S k)
    else (id0, k) in
  let seenIds := {[ id ]} ∪ seenIds in
  c_conversationId ← get_prop c (js "conversationId");
  c_conversation_id ← get_prop c (js "conversation_id");
  let conversationId : option jsstring :=
    match c_conversationId with
    | Some (JStr s) => Some s
    | _ => match c_conversation_id with
           | Some (JStr s) => Some s
           | _ => None
           end
    end in
  c_title ← get_prop c (js "title");
  let title : jsstring :=
    match c_title with
    | Some (JStr s) =>
        if bool_decide (0 < length (trim s))%nat then s else js "Conversation"
    | _ => js "Conversation"
    end in
  c_createdAt ← get_prop c (js "createdAt");
  let createdAt : jsnum :=
    match c_createdAt with
    | Some (JNum n) => n
    | _ => num_of_Z (Date_now i)
    end in
  c_turns ← get_prop c (js "turns");
  let turns : list json :=
    match c_turns with
    | Some (JArr l) => l
    | _ => []
    end in
  Some ({| conv_id := id; conv_conversationId := conversationId;
           conv_title := title; conv_createdAt := createdAt;
           conv_turns := turns |}, (seenIds, k)).

(** [parsed.map(...)], left to right from index [i]. *)
Fixpoint map_records (i : nat) (parsed : list json) (p : pass)
  : option (list (SavedConversation json)) :=
  match parsed with
  | [] => Some []
  | c :: rest =>
      '(conv, p') ← sanitize i c p;
      convs ← map_records (S i) rest p';
      Some (conv :: convs)
  end.

(** The initializer. [window_defined] is [typeof window !== "undefined"];
    [raw] is [localStorage.getItem("mentor_conversations")]. Whatever is
    thrown inside [try] is caught and yields the empty array. *)
Definition load (window_defined : bool) (raw : option jsstring)
  : list (SavedConversation json) :=
  if negb window_defined then []
  else match raw with
       | None => []
       | Some s =>
           if negb (truthy s) then []
           else match JSON_parse s with
                | None => []
                | Some (JArr parsed) =>
                    match map_records 0 parsed (∅, 0%nat) with
                    | Some convs => convs
                    | None => []
                    end
                | Some _ => []
                end
       end.

(** The string stored under [id] in a persisted record, if any. *)
Definition persisted_id (c : json) : option jsstring :=
  match c with
  | JObj fields =>
      match lookup_field (js "id") fields with
      | Some (JStr s) => Some s
      | _ => None
      end
  | _ => None
  end.

(** The record sanitized on its own: an empty [seenIds]. *)
Definition sanitize_alone (i : nat) (c : json)
  : option (SavedConversation json) :=
  fst <$> sanitize i c (∅, 0%nat).

(** No id generated from the [k]-th on is in [seen]. *)
Definition unseen_from (seen : gset (list N)) (k : nat) : Prop :=
  ∀ j, (k ≤ j)%nat → randomUUID j ∉ seen.

End Load.

(** ** The Mentor API call *)

Record AskParams := {
  p_question : jsstring;
  p_code_snippet : option jsstring;
  p_error_message : option jsstring;
  p_skill_level : SkillLevel;
  p_conversation_id : option jsstring
}.

(** What [fetch] does with a request: it rejects (network failure), or it
    resolves to a response with its [ok] flag, status, body text, and the
    outcome of [res.json()] (a [SyntaxError] message or the payload). *)
Inductive FetchResult :=
| FetchRejected (message : jsstring)
| FetchResponse (ok : bool) (status : N) (text : jsstring)
                (json_body : jsstring + AskResponse).

(** An awaited promise: its value, or the message of the error thrown. *)
Inductive Outcome (A : Type) :=
| Resolved (a : A)
| Thrown (message : jsstring).
Arguments Resolved {A} _.
Arguments Thrown {A} _.

(** Decimal digits of a non-negative integer, as in a template literal. *)
Definition decimal (n : N) : jsstring :=
  js (DecimalString.NilZero.string_of_uint (N.to_uint n)).

Definition askMentor (res : FetchResult) : Outcome AskResponse :=
  match res with
  | FetchRejected m => Thrown m
  | FetchResponse ok status text json_body =>
      if negb ok
      then Thrown (if truthy text then text
                   else js "Request failed with status " ++ decimal status)
      else match json_body with
           | inl m => Thrown m
           | inr data => Resolved data
           end
  end.

(** ** Component state

    The [useState] cells of [MentorApp], together with the
    [localStorage] slot ["conversationId"] the handlers write. *)

Record State := {
  question : jsstring;
  code : jsstring;
  errorMsg : jsstring;
  skill : SkillLevel;
  showCodeInput : bool;
  showErrorInput : bool;
  editingConversationId : option jsstring;
  editTitleValue : jsstring;
  conversationId : option jsstring;
  chat : list ChatTurn;
  conversations : list (SavedConversation ChatTurn);
  sidebarOpen : bool;
  loading : bool;
  errorText : option jsstring;
  stored_conversationId : option jsstring
}.

Definition setQuestion (v : jsstring) (s : State) : State :=
  {| question := v; code := code s; errorMsg := errorMsg s; skill := skill s;
     showCodeInput := showCodeInput s; showErrorInput := showErrorInput s;
     editingConversationId := editingConversationId s;
     editTitleValue := editTitleValue s; conversationId := conversationId s;
     chat := chat s; conversations := conversations s;
     sidebarOpen := sidebarOpen s; loading := loading s;
     errorText := errorText s;
     stored_conversationId := stored_conversationId s |}.

Definition setCode (v : jsstring) (s : State) : State :=
  {| question := question s; code := v; errorMsg := errorMsg s;
     skill := skill s;
     showCodeInput := showCodeInput s; showErrorInput := showErrorInput s;
     editingConversationId := editingConversationId s;
     editTitleValue := editTitleValue s; conversationId := conversationId s;
     chat := chat s; conversations := conversations s;
     sidebarOpen := sidebarOpen s; loading := loading s;
     errorText := errorText s;
     stored_conversationId := stored_conversationId s |}.

Definition setErrorMsg (v : jsstring) (s : State) : State :=
  {| question := question s; code := code s; errorMsg := v; skill := skill s;
     showCodeInput := showCodeInput s; showErrorInput := showErrorInput s;
     editingConversationId := editingConversationId s;
     editTitleValue := editTitleValue s; conversationId := conversationId s;
     chat := chat s; conversations := conversations s;
     sidebarOpen := sidebarOpen s; loading := loading s;
     errorText := errorText s;
     stored_conversationId := stored_conversationId s |}.

Definition setSkill (v : SkillLevel) (s : State) : State :=
  {| question := question s; code := code s; errorMsg := errorMsg s;
     skill := v;
     showCodeInput := showCodeInput s; showErrorInput := showErrorInput s;
     editingConversationId := editingConversationId s;
     editTitleValue := editTitleValue s; conversationId := conversationId s;
     chat := chat s; conversations := conversations s;
     sidebarOpen := sidebarOpen s; loading := loading s;
     errorText := errorText s;
     stored_conversationId := stored_conversationId s |}.

Definition setShowCodeInput (v : bool) (s : State) : State :=
  {| question := question s; code := code s; errorMsg := errorMsg s;
     skill := skill s;
     showCodeInput := v; showErrorInput := showErrorInput s;
     editingConversationId := editingConversationId s;
     editTitleValue := editTitleValue s; conversationId := conversationId s;
     chat := chat s; conversations := conversations s;
     sidebarOpen := sidebarOpen s; loading := loading s;
     errorText := errorText s;
     stored_conversationId := stored_conversationId s |}.

Definition setShowErrorInput (v : bool) (s : State) : State :=
  {| question := question s; code := code s; errorMsg := errorMsg s;
     skill := skill s;
     showCodeInput := showCodeInput s; showErrorInput := v;
     editingConversationId := editingConversationId s;
     editTitleValue := editTitleValue s; conversationId := conversationId s;
     chat := chat s; conversations := conversations s;
     sidebarOpen := sidebarOpen s; loading := loading s;
     errorText := errorText s;
     stored_conversationId := stored_conversationId s |}.

Definition setConversationId (v : option jsstring) (s : State) : State :=
  {| question := question s; code := code s; errorMsg := errorMsg s;
     skill := skill s;
     showCodeInput := showCodeInput s; showErrorInput := showErrorInput s;
     editingConversationId := editingConversationId s;
     editTitleValue := editTitleValue s; conversationId := v;
     chat := chat s; conversations := conversations s;
     sidebarOpen := sidebarOpen s; loading := loading s;
     errorText := errorText s;
     stored_conversationId := stored_conversationId s |}.

(** [setChat(f)], the functional form: [f] receives the latest value. *)
Definition setChat (f : list ChatTurn → list ChatTurn) (s : State) : State :=
  {| question := question s; code := code s; errorMsg := errorMsg s;
     skill := skill s;
     showCodeInput := showCodeInput s; showErrorInput := showErrorInput s;
     editingConversationId := editingConversationId s;
     editTitleValue := editTitleValue s; conversationId := conversationId s;
     chat := f (chat s); conversations := conversations s;
     sidebarOpen := sidebarOpen s; loading := loading s;
     errorText := errorText s;
     stored_conversationId := stored_conversationId s |}.

Definition setConversations
    (f : list (SavedConversation ChatTurn) → list (SavedConversation ChatTurn))
    (s : State) : State :=
  {| question := question s; code := code s; errorMsg := errorMsg s;
     skill := skill s;
     showCodeInput := showCodeInput s; showErrorInput := showErrorInput s;
     editingConversationId := editingConversationId s;
     editTitleValue := editTitleValue s; conversationId := conversationId s;
     chat := chat s; conversations := f (conversations s);
     sidebarOpen := sidebarOpen s; loading := loading s;
     errorText := errorText s;
     stored_conversationId := stored_conversationId s |}.

Definition setSidebarOpen (v : bool) (s : State) : State :=
  {| question := question s; code := code s; errorMsg := errorMsg s;
     skill := skill s;
     showCodeInput := showCodeInput s; showErrorInput := showErrorInput s;
     editingConversationId := editingConversationId s;
     editTitleValue := editTitleValue s; conversationId := conversationId s;
     chat := chat s; conversations := conversations s;
     sidebarOpen := v; loading := loading s;
     errorText := errorText s;
     stored_conversationId := stored_conversationId s |}.

Definition setLoading (v : bool) (s : State) : State :=
  {| question := question s; code := code s; errorMsg := errorMsg s;
     skill := skill s;
     showCodeInput := showCodeInput s; showErrorInput := showErrorInput s;
     editingConversationId := editingConversationId s;
     editTitleValue := editTitleValue s; conversationId := conversationId s;
     chat := chat s; conversations := conversations s;
     sidebarOpen := sidebarOpen s; loading := v;
     errorText := errorText s;
     stored_conversationId := stored_conversationId s |}.

Definition setErrorText (v : option jsstring) (s : State) : State :=
  {| question := question s; code := code s; errorMsg := errorMsg s;
     skill := skill s;
     showCodeInput := showCodeInput s; showErrorInput := showErrorInput s;
     editingConversationId := editingConversationId s;
     editTitleValue := editTitleValue s; conversationId := conversationId s;
     chat := chat s; conversations := conversations s;
     sidebarOpen := sidebarOpen s; loading := loading s;
     errorText := v;
     stored_conversationId := stored_conversationId s |}.

(** [localStorage.setItem("conversationId", v)] and
    [localStorage.removeItem("conversationId")]. *)
Definition storeConversationId (v : option jsstring) (s : State) : State :=
  {| question := question s; code := code s; errorMsg := errorMsg s;
     skill := skill s;
     showCodeInput := showCodeInput s; showErrorInput := showErrorInput s;
     editingConversationId := editingConversationId s;
     editTitleValue := editTitleValue s; conversationId := conversationId s;
     chat := chat s; conversations := conversations s;
     sidebarOpen := sidebarOpen s; loading := loading s;
     errorText := errorText s;
     stored_conversationId := v |}.

(** ** The typing-effect timer ([streamExplanation]) *)

Definition CHUNK_SIZE : nat := 2.

(** One [setInterval] registration: the captured arguments, the local
    variable [index], and whether the interval is still registered. *)
Record Interval := {
  fullText : jsstring;
  turnId : jsstring;
  index : nat;
  registered : bool
}.

(** [{ ...t, response: { ...t.response, explanation: v } }] *)
Definition with_explanation (v : jsstring) (t : ChatTurn) : ChatTurn :=
  {| turn_id := turn_id t; turn_question := turn_question t;
     turn_code := turn_code t; turn_errorMsg := turn_errorMsg t;
     turn_skill := turn_skill t;
     turn_response :=
       {| tldr := tldr (turn_response t); explanation := v;
          steps := steps (turn_response t);
          fixed_code := fixed_code (turn_response t);
          diff := diff (turn_response t);
          context_used := context_used (turn_response t);
          conversation_id := conversation_id (turn_response t) |} |}.

(** [streamExplanation(fullText, turnId)]: [index = 0] and the interval
    is registered. *)
Definition streamExplanation (fullText turnId : jsstring) : Interval :=
  {| fullText := fullText; turnId := turnId; index := 0; registered := true |}.

(** The value the callback writes when [index] has just become [i]. *)
Definition visible (iv : Interval) (i : nat) : jsstring :=
  slice0 (fullText iv) i.

(** One run of the interval callback. *)
Definition tick (iv : Interval) (s : State) : Interval * State :=
  let index := (index iv + CHUNK_SIZE)%nat in
  let s := setChat (λ prev,
             (λ t, if decide (turn_id t = turnId iv)
                   then with_explanation (visible iv index) t
                   else t) <$> prev) s in
  ({| fullText := fullText iv; turnId := turnId iv; index := index;
      registered := negb (bool_decide (length (fullText iv) ≤ index)%nat) |},
   s).

(** The interval firing up to [fuel] times: the callback runs for as long
    as the interval is registered. Returns the final timer and state and
    the values written, in order. *)
Fixpoint run_interval (fuel : nat) (iv : Interval) (s : State)
  : Interval * State * list jsstring :=
  match fuel with
  | O => (iv, s, [])
  | S fuel' =>
      if registered iv then
        let '(iv', s') := tick iv s in
        let '(iv'', s'', emitted) := run_interval fuel' iv' s' in
        (iv'', s'', visible iv (index iv') :: emitted)
      else (iv, s, [])
  end.

(** ** Handlers *)

(** What a handler does outside the component state. *)
Inductive Effect :=
| Post (params : AskParams)
| ConsoleError (message : jsstring)
| StartInterval (iv : Interval).

(** The argument of [askMentor] in [handleAsk], which becomes the body of
    the POST request. *)
Definition ask_params (st : State) : AskParams :=
  {| p_question := question st;
     p_code_snippet := or_null (code st);
     p_error_message := or_null (errorMsg st);
     p_skill_level := skill st;
     p_conversation_id := conversationId st |}.

(** [handleAsk], run from entry to the end of [finally] with nothing
    else happening while the request is awaited ([handleAsk_begin] and
    [handleAsk_resume] below are its two halves, for the runs in which
    other handlers come in between). [fetch] answers the request sent;
    [uuid] is the value of [crypto.randomUUID()] (or of the fallback)
    for the turn id; [conversationId], [question], [code], [errorMsg]
    and [skill] are the values captured when the handler was created. *)
Definition handleAsk (fetch : AskParams → FetchResult) (uuid : jsstring)
    (st : State) : State * list Effect :=
  if negb (truthy (trim (question st))) then (st, [])
  else
    let s := setLoading true st in
    let s := setErrorText None s in
    let params := ask_params st in
    let '(s, effects) :=
      match askMentor (fetch params) with
      | Resolved data =>
          let s :=
            if negb (truthy_opt (conversationId st))
               && truthy_opt (conversation_id data)
            then storeConversationId (conversation_id data)
                   (setConversationId (conversation_id data) s)
            else s in
          let fullExplanation := explanation data in
          let baseResponse :=
            {| tldr := tldr data; explanation := [];
               steps := steps data; fixed_code := fixed_code data;
               diff := diff data; context_used := context_used data;
               conversation_id := conversation_id data |} in
          let turnId := uuid in
          let s := setChat (λ prev,
                     prev ++ [ {| turn_id := turnId;
                                  turn_question := question st;
                                  turn_code := or_null (code st);
                                  turn_errorMsg := or_null (errorMsg st);
                                  turn_skill := skill st;
                                  turn_response := baseResponse |} ]) s in
          let s := setQuestion [] s in
          let s := setCode [] s in
          let s := setErrorMsg [] s in
          let s := setShowCodeInput false s in
          let s := setShowErrorInput false s in
          (s, [StartInterval (streamExplanation fullExplanation turnId)])
      | Thrown m =>
          (setErrorText
             (Some (js "Something went wrong while calling the mentor API."))
             s,
           [ConsoleError m])
      end in
    (setLoading false s, Post params :: effects).

(** [handleNewConversation]. [uuid] is the storage id drawn, [now] the
    value of [Date.now()]. *)
Definition handleNewConversation (uuid : jsstring) (now : Z) (st : State)
    : State :=
  let s :=
    match chat st with
    | firstTurn :: _ =>
        let baseTitle :=
          if bool_decide (0 < length (trim (turn_question firstTurn)))%nat
          then trim (turn_question firstTurn)
          else js "New conversation" in
        let title :=
          if bool_decide (60 < length baseTitle)%nat
          then slice0 baseTitle 57 ++ js "..."
          else baseTitle in
        let storageId := uuid in
        let newConv :=
          {| conv_id := storageId;
             conv_conversationId := conversationId st;
             conv_title := title;
             conv_createdAt := num_of_Z now;
             conv_turns := chat st |} in
        setConversations (λ prev, newConv :: prev) st
    | [] => st
    end in
  let s := setConversationId None s in
  let s := storeConversationId None s in
  let s := setChat (λ _, []) s in
  let s := setQuestion [] s in
  let s := setCode [] s in
  let s := setErrorMsg [] s in
  let s := setErrorText None s in
  s.

(** [handleLoadConversation]. *)
Definition handleLoadConversation (conv : SavedConversation ChatTurn)
    (st : State) : State :=
  let s := setChat (λ _, conv_turns conv) st in
  let s := setConversationId (conv_conversationId conv) s in
  let s :=
    if truthy_opt (conv_conversationId conv)
    then storeConversationId (conv_conversationId conv) s
    else storeConversationId None s in
  setSidebarOpen false s.

(** [handleDeleteConversation]. *)
Definition handleDeleteConversation (conv : SavedConversation ChatTurn)
    (st : State) : State :=
  let s :=
    setConversations
      (λ prev, filter (λ c, conv_id c ≠ conv_id conv) prev) st in
  if truthy_opt (conversationId st)
     && bool_decide (conv_conversationId conv = conversationId st)
  then
    let s := setConversationId None s in
    let s := storeConversationId None s in
    let s := setChat (λ _, []) s in
    let s := setQuestion [] s in
    let s := setCode [] s in
    let s := setErrorMsg [] s in
    let s := setErrorText None s in
    s
  else s.

(** ** One session

    What can happen between two resets of the active session: the user
    edits the inputs, toggles the panels, picks a skill level, submits a
    question, and running timers tick. *)

Inductive SessionEvent :=
| EditQuestion (v : list N)
| EditCode (v : list N)
| EditErrorMsg (v : list N)
| ToggleCodeInput
| ToggleErrorInput
| SelectSkill (v : SkillLevel)
| Ask (fetch : AskParams → FetchResult) (uuid : list N)
| TimerTick (iv : Interval).

Definition apply_event (st : State) (e : SessionEvent) : State :=
  match e with
  | EditQuestion v => setQuestion v st
  | EditCode v => setCode v st
  | EditErrorMsg v => setErrorMsg v st
  | ToggleCodeInput => setShowCodeInput (negb (showCodeInput st)) st
  | ToggleErrorInput => setShowErrorInput (negb (showErrorInput st)) st
  | SelectSkill v => setSkill v st
  | Ask fetch uuid => (handleAsk fetch uuid st).1
  | TimerTick iv => (tick iv st).2
  end.

Definition run_session (st : State) (events : list SessionEvent) : State :=
  foldl apply_event st events.

(** The state after the first render: the [useState] initial values,
    [conversationId] read from its storage slot, and the loaded
    conversations. *)
Definition initial_state (stored : option (list N))
    (convs : list (SavedConversation ChatTurn)) : State :=
  {| question := []; code := []; errorMsg := []; skill := beginner;
     showCodeInput := false; showErrorInput := false;
     editingConversationId := None; editTitleValue := [];
     conversationId := stored; chat := []; conversations := convs;
     sidebarOpen := false; loading := false; errorText := None;
     stored_conversationId := stored |}.

(** ** Sample data *)

(** A generator whose [k]-th id is the two code units ["u"] and [k]. *)
Definition sample_uuid (k : nat) : list N := [117; N.of_nat k].

Definition sample_clock (i : nat) : Z := 1700000000000%Z + Z.of_nat i.

(** A store whose text parses to the given value. *)
Definition parses_to (v : json) (s : list N) : option json := Some v.

Definition record_a : json :=
  JObj [(js "id", JStr (js "a")); (js "title", JStr (js "First"))].

(** Two records with the same id, one with a blank id, one without id,
    and one that is not an object. *)
Definition sample_collection : list json :=
  [record_a; record_a; JObj [(js "id", JStr [])]; JObj []; JNum (num_of_Z 7)].

Definition sample_response : AskResponse :=
  {| tldr := js "Use a comprehension";
     explanation := js "hello";
     steps := None; fixed_code := None; diff := None; context_used := None;
     conversation_id := Some (js "abc123") |}.

(** A backend that answers every request with [sample_response]. *)
Definition sample_fetch (p : AskParams) : FetchResult :=
  FetchResponse true 200 [] (inr sample_response).

(** A backend that answers 500 with an empty body. *)
Definition failing_fetch (p : AskParams) : FetchResult :=
  FetchResponse false 500 [] (inl []).

Definition sample_turn (q : list N) : ChatTurn :=
  {| turn_id := js "t1"; turn_question := q; turn_code := None;
     turn_errorMsg := None; turn_skill := beginner;
     turn_response := sample_response |}.

(** A backend that answers with another conversation id. *)
Definition other_id_fetch (p : AskParams) : FetchResult :=
  FetchResponse true 200 []
    (inr {| tldr := js "t"; explanation := js "again";
            steps := None; fixed_code := None; diff := None;
            context_used := None; conversation_id := Some (js "zzz") |}).

(** A fresh page on which ["hi"] has been typed. *)
Definition state_hi : State := setQuestion (js "hi") (initial_state None []).

(** The same with the session already bound to ["abc123"]. *)
Definition state_bound : State :=
  setQuestion (js "hi") (initial_state (Some (js "abc123")) []).

(** The same with an empty string in the ["conversationId"] slot. *)
Definition state_empty_remote_id : State :=
  setQuestion (js "hi") (initial_state (Some []) []).

(** A question typed with a leading and a trailing blank. *)
Definition state_padded_question : State :=
  setQuestion (js " hi ") (initial_state None []).

(** A fresh page with the code panel opened and some code typed. *)
Definition state_panel_open : State :=
  setCode (js "x = 1") (setShowCodeInput true (initial_state None [])).

(** That page with a question typed as well. *)
Definition state_with_code : State := setQuestion (js "hi") state_panel_open.

(** A first question of 61 code units. *)
Definition long_question : list N := js "How " ++ repeat 120 57.

(** A saved conversation whose remote id is the empty string, as the
    load accepts it from storage. *)
Definition conv_empty_remote : SavedConversation ChatTurn :=
  {| conv_id := js "c0"; conv_conversationId := Some [];
     conv_title := js "Old"; conv_createdAt := num_of_Z 0;
     conv_turns := [sample_turn (js "q")] |}.

Definition conv_bound : SavedConversation ChatTurn :=
  {| conv_id := js "c1"; conv_conversationId := Some (js "abc123");
     conv_title := js "Bound"; conv_createdAt := num_of_Z 0;
     conv_turns := [sample_turn (js "q")] |}.

(** ** Renaming a saved conversation *)

Definition setEditingConversationId (v : option (list N)) (s : State)
    : State :=
  {| question := question s; code := code s; errorMsg := errorMsg s;
     skill := skill s;
     showCodeInput := showCodeInput s; showErrorInput := showErrorInput s;
     editingConversationId := v;
     editTitleValue := editTitleValue s; conversationId := conversationId s;
     chat := chat s; conversations := conversations s;
     sidebarOpen := sidebarOpen s; loading := loading s;
     errorText := errorText s;
     stored_conversationId := stored_conversationId s |}.

Definition setEditTitleValue (v : list N) (s : State) : State :=
  {| question := question s; code := code s; errorMsg := errorMsg s;
     skill := skill s;
     showCodeInput := showCodeInput s; showErrorInput := showErrorInput s;
     editingConversationId := editingConversationId s;
     editTitleValue := v; conversationId := conversationId s;
     chat := chat s; conversations := conversations s;
     sidebarOpen := sidebarOpen s; loading := loading s;
     errorText := errorText s;
     stored_conversationId := stored_conversationId s |}.

(** [{ ...c, title: v }] *)
Definition with_title {T : Type} (v : list N) (c : SavedConversation T)
    : SavedConversation T :=
  {| conv_id := conv_id c; conv_conversationId := conv_conversationId c;
     conv_title := v; conv_createdAt := conv_createdAt c;
     conv_turns := conv_turns c |}.

Definition startEditConversationTitle (conv : SavedConversation ChatTurn)
    (st : State) : State :=
  let s := setEditingConversationId (Some (conv_id conv)) st in
  setEditTitleValue (conv_title conv) s.

Definition cancelEditConversationTitle (st : State) : State :=
  let s := setEditingConversationId None st in
  setEditTitleValue [] s.

Definition saveConversationTitle (id : list N) (st : State) : State :=
  let trimmed := trim (editTitleValue st) in
  let s :=
    if negb (truthy trimmed)
    then setConversations (λ prev,
           (λ c, if decide (conv_id c = id)
                 then with_title (js "Untitled conversation") c
                 else c) <$> prev) st
    else setConversations (λ prev,
           (λ c, if decide (conv_id c = id)
                 then with_title trimmed c
                 else c) <$> prev) st in
  cancelEditConversationTitle s.

(** ** The Enter key in the question box *)

(** The two fields of the keyboard event that [handleKeyDown] reads. *)
Record KeyboardEvent := { ev_key : list N; ev_shiftKey : bool }.

(** [handleKeyDown]; the last component tells whether
    [e.preventDefault()] was called. *)
Definition handleKeyDown (fetch : AskParams → FetchResult) (uuid : list N)
    (e : KeyboardEvent) (st : State) : State * list Effect * bool :=
  if bool_decide (ev_key e = js "Enter") && negb (ev_shiftKey e)
  then
    if negb (loading st) && truthy (trim (question st))
    then (handleAsk fetch uuid st, true)
    else (st, [], true)
  else (st, [], false).

(** ** What is written to the ["mentor_conversations"] slot

    The effect on [conversations] stores [JSON.stringify(conversations)].
    [conversations_to_json] is the JSON value of that text; [enc] is the
    JSON value of one turn. *)

Section Persist.

Context {T : Type} (enc : T → json).

(** [JSON.stringify] writes a number that is not finite as [null]. *)
Definition num_to_json (n : jsnum) : json :=
  match n with
  | Finite q => JNum (Finite q)
  | Infinite _ => JNull
  end.

Definition is_finite (n : jsnum) : Prop :=
  match n with Finite _ => True | Infinite _ => False end.

Definition conv_to_json (c : SavedConversation T) : json :=
  JObj [ (js "id", JStr (conv_id c));
         (js "conversationId",
          match conv_conversationId c with
          | Some s => JStr s
          | None => JNull
          end);
         (js "title", JStr (conv_title c));
         (js "createdAt", num_to_json (conv_createdAt c));
         (js "turns", JArr (enc <$> conv_turns c)) ].

Definition conversations_to_json (convs : list (SavedConversation T))
    : json :=
  JArr (conv_to_json <$> convs).

(** The conversation as it comes back from storage: its turns are the
    JSON values. *)
Definition as_loaded (c : SavedConversation T) : SavedConversation json :=
  {| conv_id := conv_id c; conv_conversationId := conv_conversationId c;
     conv_title := conv_title c; conv_createdAt := conv_createdAt c;
     conv_turns := enc <$> conv_turns c |}.

End Persist.

(** The JSON value of a turn as [JSON.stringify] writes it: a field
    that is [undefined] is left out. *)
Definition opt_field (k : list N) (v : option (list N))
    : list (list N * json) :=
  match v with Some s => [(k, JStr s)] | None => [] end.

Definition skill_to_json (v : SkillLevel) : json :=
  JStr (match v with
        | beginner => js "beginner"
        | intermediate => js "intermediate"
        | pro => js "pro"
        end).

Definition response_to_json (r : AskResponse) : json :=
  JObj ([ (js "tldr", JStr (tldr r));
          (js "explanation", JStr (explanation r)) ]
        ++ match steps r with
           | Some l =>
               [(js "steps",
                 JArr ((λ st, JObj [ (js "title", JStr (step_title st));
                                     (js "detail", JStr (step_detail st)) ])
                       <$> l))]
           | None => []
           end
        ++ opt_field (js "fixed_code") (fixed_code r)
        ++ opt_field (js "diff") (diff r)
        ++ opt_field (js "context_used") (context_used r)
        ++ opt_field (js "conversation_id") (conversation_id r)).

Definition turn_to_json (t : ChatTurn) : json :=
  JObj ([ (js "id", JStr (turn_id t));
          (js "question", JStr (turn_question t)) ]
        ++ opt_field (js "code") (turn_code t)
        ++ opt_field (js "errorMsg") (turn_errorMsg t)
        ++ [ (js "skill", skill_to_json (turn_skill t));
             (js "response", response_to_json (turn_response t)) ]).

(** ** Every event of the page *)

Inductive AppEvent :=
| InSession (e : SessionEvent)
| KeyDown (fetch : AskParams → FetchResult) (uuid : list N)
          (e : KeyboardEvent)
| NewConversation (uuid : list N) (now : Z)
| LoadConversation (conv : SavedConversation ChatTurn)
| DeleteConversation (conv : SavedConversation ChatTurn)
| StartEditTitle (conv : SavedConversation ChatTurn)
| EditTitle (v : list N)
| CancelEditTitle
| SaveTitle (id : list N)
| SetSidebar (v : bool).

Definition apply_app_event (st : State) (e : AppEvent) : State :=
  match e with
  | InSession e => apply_event st e
  | KeyDown fetch uuid e => (handleKeyDown fetch uuid e st).1.1
  | NewConversation uuid now => handleNewConversation uuid now st
  | LoadConversation conv => handleLoadConversation conv st
  | DeleteConversation conv => handleDeleteConversation conv st
  | StartEditTitle conv => startEditConversationTitle conv st
  | EditTitle v => setEditTitleValue v st
  | CancelEditTitle => cancelEditConversationTitle st
  | SaveTitle id => saveConversationTitle id st
  | SetSidebar v => setSidebarOpen v st
  end.

Definition run_app (st : State) (events : list AppEvent) : State :=
  foldl apply_app_event st events.

(** ** Invariants *)

(** The storage slot holds the active remote id when that is a non-empty
    string, and is empty otherwise. *)
Definition slot_in_sync (st : State) : Prop :=
  stored_conversationId st
  = if truthy_opt (conversationId st) then conversationId st else None.

(** What the load relies on to return a stored collection unchanged:
    distinct non-empty ids and titles that are not blank. *)
Definition store_ok {T : Type} (convs : list (SavedConversation T)) : Prop :=
  NoDup (conv_id <$> convs) ∧
  Forall (λ c, conv_id c ≠ [] ∧ trim (conv_title c) ≠ []) convs.

(** A storage id drawn for a snapshot is new to the store and not empty. *)
Definition event_fresh (st : State) (e : AppEvent) : Prop :=
  match e with
  | NewConversation uuid _ =>
      uuid ≠ [] ∧ uuid ∉ conv_id <$> conversations st
  | _ => True
  end.

Fixpoint events_fresh (st : State) (events : list AppEvent) : Prop :=
  match events with
  | [] => True
  | e :: rest => event_fresh st e ∧ events_fresh (apply_app_event st e) rest
  end.

(** Two states that differ at most in [chat]. *)
Definition same_but_chat (s1 s2 : State) : Prop :=
  s2 = setChat (λ _, chat s2) s1.

(** ** A request in flight

    [handleAsk] is suspended at [await askMentor(...)]: other handlers
    can run before the response arrives. What runs after the [await]
    uses the values the handler captured when it was called
    ([conversationId], [question], [code], [errorMsg], [skill]) and
    writes into the state as it is then. *)

(** The values captured (they are the request parameters: [code || null]
    and [code || undefined] are absent together) and what the call will
    give. *)
Record Pending := {
  captured : AskParams;
  outcome : Outcome AskResponse
}.

(** [handleAsk] up to the [await]. [None]: the blank-question return. *)
Definition handleAsk_begin (fetch : AskParams → FetchResult) (st : State)
    : option (State * Pending) :=
  if negb (truthy (trim (question st))) then None
  else
    let s := setLoading true st in
    let s := setErrorText None s in
    let params := ask_params st in
    Some (s, {| captured := params; outcome := askMentor (fetch params) |}).

(** [handleAsk] from the [await] on, run on the state [st] current when
    the response arrives. *)
Definition handleAsk_resume (uuid : list N) (p : Pending) (st : State)
    : State * list Effect :=
  let '(s, effects) :=
    match outcome p with
    | Resolved data =>
        let s :=
          if negb (truthy_opt (p_conversation_id (captured p)))
             && truthy_opt (conversation_id data)
          then storeConversationId (conversation_id data)
                 (setConversationId (conversation_id data) st)
          else st in
        let fullExplanation := explanation data in
        let baseResponse :=
          {| tldr := tldr data; explanation := [];
             steps := steps data; fixed_code := fixed_code data;
             diff := diff data; context_used := context_used data;
             conversation_id := conversation_id data |} in
        let turnId := uuid in
        let s := setChat (λ prev,
                   prev ++ [ {| turn_id := turnId;
                                turn_question := p_question (captured p);
                                turn_code := p_code_snippet (captured p);
                                turn_errorMsg := p_error_message (captured p);
                                turn_skill := p_skill_level (captured p);
                                turn_response := baseResponse |} ]) s in
        let s := setQuestion [] s in
        let s := setCode [] s in
        let s := setErrorMsg [] s in
        let s := setShowCodeInput false s in
        let s := setShowErrorInput false s in
        (s, [StartInterval (streamExplanation fullExplanation turnId)])
    | Thrown m =>
        (setErrorText
           (Some (js "Something went wrong while calling the mentor API."))
           st,
         [ConsoleError m])
    end in
  (setLoading false s, effects).

(** ** The page with its requests in flight *)

(** The events of the page other than submissions, arrivals and ticks. *)
Inductive UiEvent :=
| UEditQuestion (v : list N)
| UEditCode (v : list N)
| UEditErrorMsg (v : list N)
| UToggleCodeInput
| UToggleErrorInput
| USelectSkill (v : SkillLevel)
| UNewConversation (uuid : list N) (now : Z)
| ULoadConversation (conv : SavedConversation ChatTurn)
| UDeleteConversation (conv : SavedConversation ChatTurn)
| UStartEditTitle (conv : SavedConversation ChatTurn)
| UEditTitle (v : list N)
| UCancelEditTitle
| USaveTitle (id : list N)
| USetSidebar (v : bool).

Definition apply_ui (st : State) (e : UiEvent) : State :=
  match e with
  | UEditQuestion v => setQuestion v st
  | UEditCode v => setCode v st
  | UEditErrorMsg v => setErrorMsg v st
  | UToggleCodeInput => setShowCodeInput (negb (showCodeInput st)) st
  | UToggleErrorInput => setShowErrorInput (negb (showErrorInput st)) st
  | USelectSkill v => setSkill v st
  | UNewConversation uuid now => handleNewConversation uuid now st
  | ULoadConversation conv => handleLoadConversation conv st
  | UDeleteConversation conv => handleDeleteConversation conv st
  | UStartEditTitle conv => startEditConversationTitle conv st
  | UEditTitle v => setEditTitleValue v st
  | UCancelEditTitle => cancelEditConversationTitle st
  | USaveTitle id => saveConversationTitle id st
  | USetSidebar v => setSidebarOpen v st
  end.

(** The component state, the requests awaiting their response (oldest
    first), and the request bodies posted so far. *)
Record Page := {
  page_state : State;
  in_flight : list Pending;
  posted : list AskParams
}.

Definition page_of (st : State) : Page :=
  {| page_state := st; in_flight := []; posted := [] |}.

Definition with_state (f : State → State) (pg : Page) : Page :=
  {| page_state := f (page_state pg); in_flight := in_flight pg;
     posted := posted pg |}.

(** A call of [handleAsk]: it runs up to the [await]. *)
Definition page_submit (fetch : AskParams → FetchResult) (pg : Page)
    : Page :=
  match handleAsk_begin fetch (page_state pg) with
  | None => pg
  | Some (s, p) =>
      {| page_state := s; in_flight := in_flight pg ++ [p];
         posted := posted pg ++ [captured p] |}
  end.

(** The response to the [i]-th request in flight arrives: the rest of
    that call of [handleAsk] runs. *)
Definition page_arrive (i : nat) (uuid : list N) (pg : Page) : Page :=
  match in_flight pg !! i with
  | None => pg
  | Some p =>
      {| page_state := (handleAsk_resume uuid p (page_state pg)).1;
         in_flight := delete i (in_flight pg);
         posted := posted pg |}
  end.

Inductive PageEvent :=
| PUi (e : UiEvent)
| PSend (fetch : AskParams → FetchResult)
| PKeyDown (fetch : AskParams → FetchResult) (e : KeyboardEvent)
| PArrive (i : nat) (uuid : list N)
| PTick (iv : Interval).

(** [PSend] is a click on the Send button, which is disabled while
    [loading] and for a blank question; [PKeyDown] is [handleKeyDown]. *)
Definition page_step (pg : Page) (e : PageEvent) : Page :=
  match e with
  | PUi e => with_state (λ st, apply_ui st e) pg
  | PSend fetch =>
      if loading (page_state pg)
         || negb (truthy (trim (question (page_state pg))))
      then pg
      else page_submit fetch pg
  | PKeyDown fetch e =>
      if bool_decide (ev_key e = js "Enter") && negb (ev_shiftKey e)
      then
        if negb (loading (page_state pg))
           && truthy (trim (question (page_state pg)))
        then page_submit fetch pg
        else pg
      else pg
  | PArrive i uuid => page_arrive i uuid pg
  | PTick iv => with_state (λ st, (tick iv st).2) pg
  end.

Definition run_page (pg : Page) (events : list PageEvent) : Page :=
  foldl page_step pg events.

(** The events that stay within one session: no conversation is
    started, loaded or deleted. *)
Definition in_session (e : PageEvent) : Prop :=
  match e with
  | PUi (UNewConversation _ _) => False
  | PUi (ULoadConversation _) => False
  | PUi (UDeleteConversation _) => False
  | _ => True
  end.

(** A saved conversation is loaded only while no request is in flight. *)
Fixpoint loads_when_idle (pg : Page) (events : list PageEvent) : Prop :=
  match events with
  | [] => True
  | e :: rest =>
      match e with
      | PUi (ULoadConversation _) => in_flight pg = []
      | _ => True
      end ∧ loads_when_idle (page_step pg e) rest
  end.

(** At most one request is in flight, [loading] is set while it is, and
    it was submitted when [R] held of the id it captured and the state. *)
Definition one_in_flight (R : option (list N) → State → Prop) (pg : Page)
    : Prop :=
  in_flight pg = [] ∨
  ∃ p, in_flight pg = [p] ∧ loading (page_state pg) = true ∧
       R (p_conversation_id (captured p)) (page_state pg).

(** The request was captured with a non-empty id if the state is bound
    to one. *)
Definition bound_if_bound (c : option (list N)) (st : State) : Prop :=
  truthy_opt (conversationId st) = true → truthy_opt c = true.

(** The request was captured with the id the state still has. *)
Definition same_id (c : option (list N)) (st : State) : Prop :=
  c = conversationId st.

(** * Properties *)

(** ** Loading *)

Section LoadFacts.

Context (randomUUID : nat → list N) (Date_now : nat → Z).

Local Abbreviation sanitize' := (sanitize randomUUID Date_now).
Local Abbreviation map_records' := (map_records randomUUID Date_now).
Local Abbreviation sanitize_alone' := (sanitize_alone randomUUID Date_now).
Local Abbreviation unseen_from' := (unseen_from randomUUID).

(** The id a record leaves the pass with is the next generated one, or
    the persisted one when that is non-empty and not yet seen; it is
    then recorded as seen. *)
Lemma sanitize_id i c seen k conv seen' k' :
  sanitize' i c (seen, k) = Some (conv, (seen', k')) →
  seen' = {[ conv_id conv ]} ∪ seen ∧
  ((conv_id conv = randomUUID k ∧ k' = S k) ∨
   (persisted_id c = Some (conv_id conv) ∧ (conv_id conv ∉ seen) ∧ k' = k)).
Proof.
  unfold sanitize, persisted_id.
  destruct c as [| b | n | s | items | fields]; simpl; try discriminate;
    try (intros [= <- <- <-]; simpl; split; [done | by left]).
  destruct (lookup_field (js "id") fields) as [[| b | n | s | items | fs]|];
    simpl; try (intros [= <- <- <-]; simpl; split; [done | by left]).
  case_bool_decide as Hlen; simpl.
  - destruct (truthy s) eqn:Ht; simpl.
    + case_bool_decide as Hseen; simpl; intros [= <- <- <-]; simpl;
        (split; [done|]); [by left | by right].
    + intros [= <- <- <-]; simpl. split; [done | by left].
  - intros [= <- <- <-]; simpl. split; [done | by left].
Qed.

(** The unfolding of [map_records] on a non-empty array. *)
Lemma map_records_cons i c rest p :
  map_records' i (c :: rest) p =
  match sanitize' i c p with
  | Some (conv, p') =>
      match map_records' (S i) rest p' with
      | Some convs => Some (conv :: convs)
      | None => None
      end
  | None => None
  end.
Proof.
  simpl. destruct (sanitize randomUUID Date_now i c p) as [[conv p']|];
    simpl; [|done].
  by destruct (map_records randomUUID Date_now (S i) rest p').
Qed.

(** Only [null] makes the body throw. *)
Lemma sanitize_throws_iff i c p :
  sanitize' i c p = None ↔ c = JNull.
Proof.
  destruct p as [seen k]. unfold sanitize.
  destruct c; simpl; split; try done;
    repeat (case_match; simpl in *; try done).
Qed.

Lemma map_records_ids parsed : ∀ i seen k convs,
  Inj (=) (=) randomUUID →
  (∀ c j, c ∈ parsed → persisted_id c ≠ Some (randomUUID j)) →
  unseen_from' seen k →
  map_records' i parsed (seen, k) = Some convs →
  NoDup (conv_id <$> convs) ∧ ∀ x, x ∈ conv_id <$> convs → x ∉ seen.
Proof.
  induction parsed as [|c rest IH]; intros i seen k convs Hinj Hfresh Hun.
  - intros [= <-]. split; [constructor | by intros x ?%elem_of_nil].
  - rewrite map_records_cons.
    destruct (sanitize' i c (seen, k)) as [[conv [seen' k']]|] eqn:Hs;
      [|done].
    destruct (map_records' (S i) rest (seen', k')) as [convs'|] eqn:Hm;
      [|done].
    intros [= <-].
    apply sanitize_id in Hs as [-> Hid].
    assert (Hnew : conv_id conv ∉ seen).
    { destruct Hid as [[-> _]|(_ & ? & _)]; [apply Hun; lia | done]. }
    assert (Hun' : unseen_from' ({[conv_id conv]} ∪ seen) k').
    { intros j Hj [Heq%elem_of_singleton|Hin]%elem_of_union.
      - destruct Hid as [[Hc ->]|(Hp & _ & ->)].
        + rewrite Hc in Heq. apply Hinj in Heq. lia.
        + apply (Hfresh c j); [left|]. by rewrite Heq.
      - destruct Hid as [[_ ->]|(_ & _ & ->)]; apply (Hun j); [lia|done..]. }
    assert (Hfresh' : ∀ c' j, c' ∈ rest →
                             persisted_id c' ≠ Some (randomUUID j)).
    { intros c' j Hc'. apply Hfresh. by right. }
    destruct (IH (S i) _ k' convs' Hinj Hfresh' Hun' Hm) as [Hnd Hout].
    split.
    + rewrite fmap_cons. constructor; [|done].
      intros Hin. apply (Hout _ Hin).
      by apply elem_of_union_l, elem_of_singleton.
    + intros x [->|Hin]%elem_of_cons; [done|].
      intros Hx. apply (Hout _ Hin). by apply elem_of_union_r.
Qed.

(** Without a [null] element every record is mapped. *)
Lemma map_records_total parsed : ∀ i p,
  Forall (λ c, c ≠ JNull) parsed →
  ∃ convs, map_records' i parsed p = Some convs.
Proof.
  induction parsed as [|c rest IH]; intros i p Hnn; [by eexists|].
  apply Forall_cons in Hnn as [Hc Hrest]. rewrite map_records_cons.
  destruct (sanitize' i c p) as [[conv p']|] eqn:Hs.
  - destruct (IH (S i) p' Hrest) as [convs ->]. by eexists.
  - by apply sanitize_throws_iff in Hs.
Qed.

(** Apart from the id, the result of the body does not depend on the
    state of the pass. *)
Lemma sanitize_fields i c p conv p' :
  sanitize' i c p = Some (conv, p') →
  ∃ alone, sanitize_alone' i c = Some alone ∧
    conv_conversationId conv = conv_conversationId alone ∧
    conv_title conv = conv_title alone ∧
    conv_createdAt conv = conv_createdAt alone ∧
    conv_turns conv = conv_turns alone.
Proof.
  destruct p as [seen k]. unfold sanitize_alone, sanitize.
  destruct c; simpl; try done;
    repeat match goal with
           | |- context [let '(_, _) := ?e in _] => destruct e
           end;
    simpl; intros [= <- <-]; eexists; (split; [reflexivity|]); done.
Qed.

Lemma map_records_lookup parsed : ∀ i p convs n c,
  map_records' i parsed p = Some convs →
  parsed !! n = Some c →
  ∃ conv q q', convs !! n = Some conv ∧
               sanitize' (i + n) c q = Some (conv, q').
Proof.
  induction parsed as [|c0 rest IH]; intros i p convs n c; [done|].
  rewrite map_records_cons.
  destruct (sanitize' i c0 p) as [[conv p']|] eqn:Hs; [|done].
  destruct (map_records' (S i) rest p') as [convs'|] eqn:Hm; [|done].
  intros [= <-]. destruct n as [|n]; simpl.
  - intros [= <-]. exists conv, p, p'. by rewrite Nat.add_0_r.
  - intros Hn. destruct (IH _ _ _ _ _ Hm Hn) as (cv & q & q' & ? & Hq).
    exists cv, q, q'. split; [done|].
    by replace (i + S n)%nat with (S i + n)%nat by lia.
Qed.

Lemma map_records_length parsed : ∀ i p convs,
  map_records' i parsed p = Some convs → length convs = length parsed.
Proof.
  induction parsed as [|c0 rest IH]; intros i p convs.
  - by intros [= <-].
  - rewrite map_records_cons.
    destruct (sanitize' i c0 p) as [[conv p']|]; [|done].
    destruct (map_records' (S i) rest p') as [convs'|] eqn:Hm; [|done].
    intros [= <-]. simpl. f_equal. eauto.
Qed.

End LoadFacts.

Lemma sample_uuid_inj : Inj (=) (=) sample_uuid.
Proof. intros i j [= H]. lia. Qed.

(** ** Uniqueness of the loaded local ids *)

Section LoadIds.

Context (JSON_parse : list N → option json) (randomUUID : nat → list N)
        (Date_now : nat → Z).

(** Which id a record leaves the body with: the stored one when it is a
    non-empty string not in [seenIds], the next generated one when the
    stored id is missing, blank or in [seenIds]. *)
Lemma sanitize_id_cases i c seen k conv p' :
  sanitize randomUUID Date_now i c (seen, k) = Some (conv, p') →
  (∀ id, persisted_id c = Some id → id ≠ [] → (id ∉ seen) →
         conv_id conv = id) ∧
  (persisted_id c = None ∨ persisted_id c = Some [] ∨
   (∃ id, persisted_id c = Some id ∧ id ∈ seen) →
   conv_id conv = randomUUID k).
Proof.
  unfold sanitize, persisted_id.
  destruct c as [| b | n | s | items | fields]; simpl; try discriminate;
    try (intros [= <- <-]; simpl; split; [done|done]).
  destruct (lookup_field (js "id") fields) as [[| b | n | s | items | fs]|];
    simpl; try (intros [= <- <-]; simpl; split; [done|done]).
  destruct s as [|ch s].
  - rewrite bool_decide_eq_false_2 by (simpl; lia). simpl.
    intros [= <- <-]. simpl. split; [by intros id [= <-]|done].
  - rewrite bool_decide_eq_true_2 by (simpl; lia). simpl.
    case_bool_decide as Hseen; simpl; intros [= <- <-]; simpl.
    + split; [by intros id [= <-]|done].
    + split; [by intros id [= <-]|].
      intros [?|[?|(id & [= <-] & Hin)]]; done.
Qed.

(** The id of the [n]-th record of the pass, from the ids emitted before
    it. *)
Lemma map_records_id_at parsed : ∀ i seen k convs n c conv,
  map_records randomUUID Date_now i parsed (seen, k) = Some convs →
  parsed !! n = Some c → convs !! n = Some conv →
  (∀ id, persisted_id c = Some id → id ≠ [] → (id ∉ seen) →
         (id ∉ conv_id <$> take n convs) → conv_id conv = id) ∧
  (persisted_id c = None ∨ persisted_id c = Some [] ∨
   (∃ id, persisted_id c = Some id ∧
          (id ∈ seen ∨ id ∈ conv_id <$> take n convs)) →
   ∃ k', conv_id conv = randomUUID k').
Proof.
  induction parsed as [|c0 rest IH]; intros i seen k convs n c conv; [done|].
  rewrite map_records_cons.
  destruct (sanitize randomUUID Date_now i c0 (seen, k))
    as [[conv0 [seen' k']]|] eqn:Hs; [|done].
  destruct (map_records randomUUID Date_now (S i) rest (seen', k'))
    as [convs'|] eqn:Hm; [|done].
  intros [= <-]. destruct n as [|n]; simpl.
  - intros [= <-] [= <-].
    destruct (sanitize_id_cases _ _ _ _ _ _ Hs) as [Hkeep Hgen]. split.
    + intros id Hid Hne Hseen _. by apply Hkeep.
    + intros [?|[?|(id & Hid & [Hin|Hin%elem_of_nil])]]; try done;
        exists k; apply Hgen; eauto.
  - intros Hc Hconv.
    apply sanitize_id in Hs as [-> _].
    destruct (IH _ _ _ _ _ _ _ Hm Hc Hconv) as [Hkeep Hgen]. split.
    + intros id Hid Hne Hseen Hearlier. apply Hkeep; try done.
      * intros [Heq%elem_of_singleton|Hin]%elem_of_union; [|done].
        apply Hearlier. rewrite Heq. left.
      * intros Hin. apply Hearlier. by right.
    + intros [?|[?|(id & Hid & Hin)]]; apply Hgen; eauto.
      right. right. exists id. split; [done|].
      destruct Hin as [Hin|[->|Hin]%elem_of_cons].
      * left. by apply elem_of_union_r.
      * left. by apply elem_of_union_l, elem_of_singleton.
      * by right.
Qed.

Lemma NoDup_lookup_not_earlier {A} (l : list A) n x :
  NoDup l → l !! n = Some x → x ∉ take n l.
Proof.
  intros Hnd Hx Hin. rewrite <- (take_drop_middle l n x Hx) in Hnd.
  apply NoDup_app in Hnd as (_ & Hdis & _).
  apply (Hdis x Hin). left.
Qed.

(** C1, as the code has it. Provided the ids the generator hands out
    are pairwise distinct and none equals an id stored in the
    collection, the conversations returned by the load have pairwise
    distinct ids, whatever the slot holds. For an array without [null]
    elements there is one conversation per record; a record whose
    stored id is a non-empty string not emitted earlier in the pass
    keeps it, and a record whose id is missing, blank or already emitted
    gets a generated id, different from every id emitted before it. *)
Theorem load_ids_pairwise_distinct (window_defined : bool)
    (raw : option (list N)) :
  Inj (=) (=) randomUUID →
  (∀ s parsed c j, raw = Some s → JSON_parse s = Some (JArr parsed) →
                   c ∈ parsed → persisted_id c ≠ Some (randomUUID j)) →
  NoDup (conv_id <$> load JSON_parse randomUUID Date_now window_defined raw) ∧
  ∀ s parsed,
    window_defined = true → raw = Some s → truthy s = true →
    JSON_parse s = Some (JArr parsed) →
    Forall (λ c, c ≠ JNull) parsed →
    length (load JSON_parse randomUUID Date_now window_defined raw)
      = length parsed ∧
    ∀ n c conv,
      parsed !! n = Some c →
      load JSON_parse randomUUID Date_now window_defined raw !! n
        = Some conv →
      (∀ id, persisted_id c = Some id → id ≠ [] →
         (id ∉ conv_id <$>
                 take n (load JSON_parse randomUUID Date_now
                              window_defined raw)) →
         conv_id conv = id) ∧
      (persisted_id c = None ∨ persisted_id c = Some [] ∨
       (∃ id, persisted_id c = Some id ∧
              id ∈ conv_id <$>
                     take n (load JSON_parse randomUUID Date_now
                                  window_defined raw)) →
       (∃ k, conv_id conv = randomUUID k) ∧
       (conv_id conv ∉ conv_id <$>
                         take n (load JSON_parse randomUUID Date_now
                                      window_defined raw))).
Proof.
  intros Hinj Hfresh.
  assert (Hnd : NoDup (conv_id <$> load JSON_parse randomUUID Date_now
                                        window_defined raw)).
  { unfold load.
    destruct window_defined; simpl; [|constructor].
    destruct raw as [s|]; [|constructor].
    destruct (truthy s); simpl; [|constructor].
    destruct (JSON_parse s) as [[| | | |parsed|]|] eqn:Hp; try constructor.
    destruct (map_records _ _ 0 parsed (∅, 0%nat)) as [convs|] eqn:Hm;
      [|constructor].
    eapply (map_records_ids randomUUID Date_now parsed 0 ∅ 0%nat convs);
      eauto.
    by intros j _ ?%elem_of_empty. }
  split; [exact Hnd|].
  intros s parsed -> -> Hs Hp Hnn. revert Hnd. unfold load. cbn [negb].
  rewrite Hs, Hp. cbn [negb].
  destruct (map_records_total randomUUID Date_now parsed 0 (∅, 0%nat) Hnn)
    as [convs Hm].
  rewrite Hm. intros Hnd. split; [by eapply map_records_length|].
  intros n c conv Hc Hconv.
  destruct (map_records_id_at parsed _ _ _ _ _ _ _ Hm Hc Hconv)
    as [Hkeep Hgen].
  split.
  - intros id Hid Hne Hearlier. by apply Hkeep.
  - intros Hcase. split.
    + apply Hgen. destruct Hcase as [?|[?|(id & Hid & Hin)]]; eauto.
      right. right. exists id. eauto.
    + rewrite fmap_take. apply NoDup_lookup_not_earlier; [done|].
      by rewrite list_lookup_fmap, Hconv.
Qed.

End LoadIds.

Section LoadRecords.

Context (JSON_parse : list N → option json) (randomUUID : nat → list N)
        (Date_now : nat → Z).

Local Abbreviation load' := (load JSON_parse randomUUID Date_now).

(** C6, as the code has it. The load yields the empty sequence when the
    slot is absent, when its text is not JSON, and when it parses to
    something that is not an array. For an array without [null] elements
    it yields one conversation per element, in order; the id of each is
    the one stored in the element or a generated one, and its remote id,
    title, creation time and turns are those of the element sanitized on
    its own, whatever the other elements are. *)
Theorem load_sanitizes_each_record :
  (∀ w, load' w None = []) ∧
  (∀ w s, JSON_parse s = None → load' w (Some s) = []) ∧
  (∀ w s v, JSON_parse s = Some v → (∀ l, v ≠ JArr l) →
            load' w (Some s) = []) ∧
  (∀ s parsed,
      truthy s = true →
      JSON_parse s = Some (JArr parsed) →
      Forall (λ c, c ≠ JNull) parsed →
      length (load' true (Some s)) = length parsed ∧
      ∀ n c, parsed !! n = Some c →
        ∃ conv alone,
          load' true (Some s) !! n = Some conv ∧
          sanitize_alone randomUUID Date_now n c = Some alone ∧
          (persisted_id c = Some (conv_id conv) ∨
           ∃ k, conv_id conv = randomUUID k) ∧
          conv_conversationId conv = conv_conversationId alone ∧
          conv_title conv = conv_title alone ∧
          conv_createdAt conv = conv_createdAt alone ∧
          conv_turns conv = conv_turns alone).
Proof.
  split; [|split; [|split]].
  - intros w. unfold load. by destruct w.
  - intros w s Hp. unfold load. rewrite Hp. by destruct w, (truthy s).
  - intros w s v Hp Hv. unfold load. rewrite Hp.
    destruct w, (truthy s), v; simpl; try done. by destruct (Hv items).
  - intros s parsed Hs Hp Hnn. unfold load. simpl. rewrite Hs, Hp. simpl.
    destruct (map_records_total randomUUID Date_now parsed 0 (∅, 0%nat) Hnn)
      as [convs Hm].
    rewrite Hm. split; [by eapply map_records_length|].
    intros n c Hn.
    destruct (map_records_lookup _ _ _ _ _ _ _ _ Hm Hn)
      as (conv & q & q' & Hc & Hq).
    destruct (sanitize_fields _ _ _ _ _ _ _ Hq) as (alone & Ha & Hf).
    exists conv, alone. split; [done|]. split; [done|]. split; [|done].
    destruct q as [seen k], q' as [seen' k'].
    apply sanitize_id in Hq as [_ [[Hid _]|[Hid _]]]; [right|left]; eauto.
Qed.

End LoadRecords.

(** C1 (amended) at the sample collection. *)
Lemma load_ids_pairwise_distinct_witness :
  NoDup (conv_id <$> load (parses_to (JArr sample_collection)) sample_uuid
                          sample_clock true (Some (js "stored"))) ∧
  length (load (parses_to (JArr sample_collection)) sample_uuid
               sample_clock true (Some (js "stored"))) = 5%nat.
Proof.
  destruct (load_ids_pairwise_distinct (parses_to (JArr sample_collection))
              sample_uuid sample_clock true (Some (js "stored")))
    as [Hnd Hrec].
  - exact sample_uuid_inj.
  - intros s parsed c j _ [= <-] Hc.
    unfold sample_collection in Hc.
    repeat (apply elem_of_cons in Hc as [->|Hc]); try done.
    by apply elem_of_nil in Hc.
  - split; [exact Hnd|].
    assert (Hnn : Forall (λ c, c ≠ JNull) sample_collection)
      by (unfold sample_collection; by repeat constructor).
    destruct (Hrec (js "stored") sample_collection eq_refl eq_refl eq_refl
                eq_refl Hnn) as [Hlen _].
    exact Hlen.
Defined.

(** C1 as stated fails: the id generated for a record is not compared
    with [seenIds]. When the collection holds a record whose stored id
    is the one the generator hands out next, the record without id that
    follows it is given that same id. *)
Lemma load_generated_id_repeats_a_stored_id :
  conv_id <$>
    load (parses_to (JArr [JObj [(js "id", JStr (sample_uuid 0))]; JObj []]))
         sample_uuid sample_clock true (Some (js "stored"))
  = [sample_uuid 0; sample_uuid 0] ∧
  ¬ NoDup (conv_id <$>
             load (parses_to
                     (JArr [JObj [(js "id", JStr (sample_uuid 0))]; JObj []]))
                  sample_uuid sample_clock true (Some (js "stored"))).
Proof.
  split; [by vm_compute|].
  intros Hnd.
  apply (bool_decide_pack _) in Hnd. by vm_compute in Hnd.
Qed.

(** The generator's result is not compared with [seenIds]: a generator
    that returns an id already emitted gives a repeated id. *)
Lemma load_repeats_a_colliding_generated_id :
  conv_id <$> load (parses_to (JArr [record_a; JObj []])) (λ _, js "a")
                   sample_clock true (Some (js "stored"))
  = [js "a"; js "a"].
Proof. vm_compute. reflexivity. Qed.

(** C6 as stated fails: a [null] element makes the body of [map] throw,
    the [catch] returns the empty array, and the well-formed record next
    to it is lost. *)
Lemma load_null_element_discards_batch :
  load (parses_to (JArr [JNull; record_a])) sample_uuid sample_clock true
       (Some (js "stored")) = []
  ∧ length (load (parses_to (JArr [JNull; record_a])) sample_uuid
                 sample_clock true (Some (js "stored")))
    ≠ length [JNull; record_a].
Proof. split; vm_compute; [reflexivity | discriminate]. Qed.

(** C6 (amended) at the sample collection. *)
Lemma load_sanitizes_each_record_witness :
  length (load (parses_to (JArr sample_collection)) sample_uuid sample_clock
               true (Some (js "stored"))) = 5%nat.
Proof.
  pose proof (load_sanitizes_each_record
                (parses_to (JArr sample_collection)) sample_uuid sample_clock)
    as (_ & _ & _ & H).
  destruct (H (js "stored") sample_collection) as [-> _]; try done.
  unfold sample_collection. by repeat constructor.
Defined.

(** ** The typing-effect timer *)

Lemma run_interval_unregistered fuel iv s :
  registered iv = false → run_interval fuel iv s = (iv, s, []).
Proof. intros H. destruct fuel; simpl; [done|]. by rewrite H. Qed.

(** After a tick every turn carrying the timer's id shows the value the
    tick wrote. *)
Lemma tick_writes iv s t :
  t ∈ chat (tick iv s).2 → turn_id t = turnId iv →
  explanation (turn_response t) = visible iv (index iv + CHUNK_SIZE).
Proof.
  simpl. intros (t0 & -> & _)%list_elem_of_fmap.
  destruct (decide (turn_id t0 = turnId iv)); simpl; [done|].
  intros. congruence.
Qed.

(** The timer started at [index iv] fires exactly [d] times, [d] being
    the first count with [index iv + 2 d >= length]; the values written
    are the prefixes of lengths [index iv + 2], [index iv + 4], ... *)
Lemma run_interval_ticks d : ∀ iv s extra,
  registered iv = true →
  (length (fullText iv) ≤ index iv + 2 * S d)%nat →
  (d = 0%nat ∨ index iv + 2 * d < length (fullText iv))%nat →
  ∃ s',
    run_interval (S d + extra) iv s =
      ({| fullText := fullText iv; turnId := turnId iv;
          index := index iv + 2 * S d; registered := false |}, s',
       (λ i, take (index iv + 2 * S i) (fullText iv)) <$> seq 0 (S d))
    ∧ ∀ t, t ∈ chat s' → turn_id t = turnId iv →
           explanation (turn_response t) = fullText iv.
Proof.
  induction d as [|d IH]; intros iv s extra Hreg Hfin Hmin.
  - exists (tick iv s).2. split.
    + cbn [run_interval Nat.add]. rewrite Hreg.
      destruct (tick iv s) as [iv' s1] eqn:Ht.
      assert (Hiv' : iv' = {| fullText := fullText iv; turnId := turnId iv;
                              index := index iv + 2 * 1;
                              registered := false |}).
      { unfold tick in Ht. injection Ht as <- _. f_equal.
        rewrite bool_decide_eq_true_2; [done|]. unfold CHUNK_SIZE. lia. }
      rewrite run_interval_unregistered by (by rewrite Hiv').
      rewrite Hiv'. simpl. unfold visible, slice0. simpl. done.
    + intros t Ht Hid. rewrite (tick_writes _ _ _ Ht Hid).
      unfold visible, slice0, CHUNK_SIZE. apply take_ge. lia.
  - destruct Hmin as [|Hmin]; [done|].
    pose (iv1 := {| fullText := fullText iv; turnId := turnId iv;
                    index := index iv + CHUNK_SIZE; registered := true |}).
    assert (Htick : tick iv s = (iv1, (tick iv s).2)).
    { unfold tick, iv1. simpl. do 2 f_equal.
      rewrite bool_decide_eq_false_2; [done|]. unfold CHUNK_SIZE. lia. }
    destruct (IH iv1 (tick iv s).2 extra) as (s' & Hrun & Hfull).
    { done. }
    { simpl. unfold CHUNK_SIZE. lia. }
    { right. simpl. unfold CHUNK_SIZE. lia. }
    exists s'. split; [|exact Hfull].
    change (S (S d) + extra)%nat with (S (S d + extra)).
    cbn [run_interval]. rewrite Hreg, Htick, Hrun.
    change (seq 0 (S (S d))) with (0%nat :: seq 1 (S d)).
    rewrite <- (fmap_S_seq 0 (S d)), fmap_cons, <- list_fmap_compose.
    unfold iv1, visible, slice0, CHUNK_SIZE; cbn [index fullText turnId].
    replace (index iv + 2 + 2 * S d)%nat with (index iv + 2 * S (S d))%nat
      by lia.
    change (2 * 1)%nat with 2%nat. do 2 f_equal.
    apply list_fmap_ext. intros _ i _. cbn [compose]. f_equal. lia.
Qed.

(** C3. [streamExplanation(text, turn)] stops after finitely many ticks
    (the interval is cleared, however long the scheduler would keep
    firing); the values it writes have non-decreasing length, none is
    longer than [text], and the last one is [text] itself, which is then
    what every turn with that id shows. *)
Theorem reveal_grows_stops_and_ends_with_full_text
    (text turn : list N) (st : State) :
  ∃ n, ∀ extra,
    ∃ iv st' emitted,
      run_interval (n + extra) (streamExplanation text turn) st
        = (iv, st', emitted) ∧
      registered iv = false ∧
      length emitted = n ∧
      (∀ i j a b, (i ≤ j)%nat → emitted !! i = Some a →
                  emitted !! j = Some b → (length a ≤ length b)%nat) ∧
      Forall (λ v, (length v ≤ length text)%nat) emitted ∧
      last emitted = Some text ∧
      (∀ t, t ∈ chat st' → turn_id t = turn →
            explanation (turn_response t) = text).
Proof.
  set (d := ((length text - 1) / 2)%nat).
  assert (Hd1 : (length text ≤ 2 * S d)%nat).
  { unfold d. pose proof (Nat.div_mod_eq (length text - 1) 2).
    pose proof (Nat.mod_upper_bound (length text - 1) 2). lia. }
  assert (Hd2 : (d = 0 ∨ 2 * d < length text)%nat).
  { unfold d. pose proof (Nat.div_mod_eq (length text - 1) 2).
    pose proof (Nat.mod_upper_bound (length text - 1) 2). lia. }
  exists (S d). intros extra.
  destruct (run_interval_ticks d (streamExplanation text turn) st extra)
    as (st' & Hrun & Hfull); [done|exact Hd1|exact Hd2|].
  unfold streamExplanation in Hrun, Hfull.
  cbn [fullText turnId index Nat.add] in Hrun, Hfull.
  eexists _, st', _. split; [exact Hrun|].
  split; [done|]. split; [by rewrite length_fmap, length_seq|].
  split; [|split; [|split; [|exact Hfull]]].
  - intros i j a b Hij Ha Hb.
    rewrite list_lookup_fmap in Ha, Hb.
    destruct (seq 0 (S d) !! i) as [i'|] eqn:Hi; [|done].
    destruct (seq 0 (S d) !! j) as [j'|] eqn:Hj; [|done].
    apply lookup_seq in Hi as [-> _]. apply lookup_seq in Hj as [-> _].
    simpl in Ha, Hb. injection Ha as <-. injection Hb as <-.
    rewrite !length_take. lia.
  - apply Forall_fmap, Forall_forall. intros i _. simpl.
    rewrite length_take. lia.
  - rewrite fmap_last, seq_S, last_snoc. simpl. f_equal.
    apply take_ge. lia.
Qed.

(** ** Strings *)

Lemma trim_nil : trim [] = [].
Proof. reflexivity. Qed.

Lemma trim_nonempty s : truthy (trim s) = true → s ≠ [].
Proof. by intros H ->. Qed.

Lemma truthy_length s : truthy s = bool_decide (0 < length s)%nat.
Proof.
  destruct s as [|c s]; [done|].
  symmetry. apply bool_decide_eq_true_2. simpl. lia.
Qed.

(** ** [handleAsk] *)

(** A rejected [fetch] and a response whose [ok] flag is off both make
    [askMentor] throw. *)
Lemma askMentor_failure res :
  (∃ m, res = FetchRejected m) ∨
  (∃ status text body, res = FetchResponse false status text body) →
  ∃ m, askMentor res = Thrown m.
Proof.
  intros [[m ->]|(status & text & body & ->)]; simpl; by eexists.
Qed.

(** The two outcomes of a call that passes the blank-question guard. *)
Lemma handleAsk_resolved fetch uuid st data :
  truthy (trim (question st)) = true →
  askMentor (fetch (ask_params st)) = Resolved data →
  ∃ st1,
    handleAsk fetch uuid st =
      (st1, [Post (ask_params st);
             StartInterval (streamExplanation (explanation data) uuid)]) ∧
    loading st1 = false ∧
    chat st1 = chat st ++
      [ {| turn_id := uuid; turn_question := question st;
           turn_code := or_null (code st);
           turn_errorMsg := or_null (errorMsg st);
           turn_skill := skill st;
           turn_response :=
             {| tldr := tldr data; explanation := [];
                steps := steps data; fixed_code := fixed_code data;
                diff := diff data; context_used := context_used data;
                conversation_id := conversation_id data |} |} ] ∧
    conversationId st1 =
      (if negb (truthy_opt (conversationId st))
          && truthy_opt (conversation_id data)
       then conversation_id data else conversationId st).
Proof.
  intros Hq Hres. unfold handleAsk. rewrite Hq, Hres. simpl.
  eexists. split; [reflexivity|].
  by destruct (negb (truthy_opt (conversationId st))
               && truthy_opt (conversation_id data)).
Qed.

Lemma handleAsk_thrown fetch uuid st m :
  truthy (trim (question st)) = true →
  askMentor (fetch (ask_params st)) = Thrown m →
  ∃ st1,
    handleAsk fetch uuid st =
      (st1, [Post (ask_params st); ConsoleError m]) ∧
    loading st1 = false ∧
    chat st1 = chat st ∧
    conversationId st1 = conversationId st ∧
    errorText st1 =
      Some (js "Something went wrong while calling the mentor API.").
Proof.
  intros Hq Hres. unfold handleAsk. rewrite Hq, Hres. simpl.
  eexists. by split.
Qed.

Lemma handleAsk_blank fetch uuid st :
  truthy (trim (question st)) = false → handleAsk fetch uuid st = (st, []).
Proof. intros Hq. unfold handleAsk. by rewrite Hq. Qed.

(** A call leaves a non-empty remote id as it is. *)
Lemma handleAsk_keeps_bound_id fetch uuid st :
  truthy_opt (conversationId st) = true →
  conversationId (handleAsk fetch uuid st).1 = conversationId st.
Proof.
  intros Hb. destruct (truthy (trim (question st))) eqn:Hq.
  - destruct (askMentor (fetch (ask_params st))) as [data|m] eqn:Hres.
    + destruct (handleAsk_resolved fetch uuid st data Hq Hres)
        as (st1 & Hst1 & _ & _ & Hid).
      rewrite Hst1. simpl. by rewrite Hid, Hb.
    + destruct (handleAsk_thrown fetch uuid st m Hq Hres)
        as (st1 & Hst1 & _ & _ & Hid & _).
      by rewrite Hst1.
  - by rewrite handleAsk_blank.
Qed.

Lemma apply_event_keeps_bound_id st e :
  truthy_opt (conversationId st) = true →
  conversationId (apply_event st e) = conversationId st.
Proof.
  intros Hb. destruct e; try done.
  by apply handleAsk_keeps_bound_id.
Qed.

(** The scenario of the specification: the first request carries no
    conversation id, the response binds ["abc123"], and the second
    request carries it. *)
Lemma first_response_binds_and_second_request_sends_it :
  p_conversation_id (ask_params state_hi) = None ∧
  conversationId (handleAsk sample_fetch (js "t1") state_hi).1
    = Some (js "abc123") ∧
  p_conversation_id
    (ask_params (setQuestion (js "more")
                   (handleAsk sample_fetch (js "t1") state_hi).1))
    = Some (js "abc123").
Proof. vm_compute. by repeat split. Qed.

(** C4. For a non-blank question: when the API call fails ([fetch]
    rejects, the status is not a success, or the body is not JSON) no
    turn is appended and the generic message is set; and whether the
    call resolved or threw, [loading] is false at the end. *)
Theorem failed_call_sets_error_and_loading_is_cleared
    (fetch : AskParams → FetchResult) (uuid : list N) (st : State) :
  truthy (trim (question st)) = true →
  loading (handleAsk fetch uuid st).1 = false ∧
  (((∃ m, fetch (ask_params st) = FetchRejected m) ∨
    (∃ status text body,
        fetch (ask_params st) = FetchResponse false status text body)) →
   ∃ m, askMentor (fetch (ask_params st)) = Thrown m) ∧
  (∀ m, askMentor (fetch (ask_params st)) = Thrown m →
        chat (handleAsk fetch uuid st).1 = chat st ∧
        errorText (handleAsk fetch uuid st).1
          = Some (js "Something went wrong while calling the mentor API.") ∧
        (handleAsk fetch uuid st).2
          = [Post (ask_params st); ConsoleError m]).
Proof.
  intros Hq. split; [|split].
  - destruct (askMentor (fetch (ask_params st))) as [data|m] eqn:Hres.
    + destruct (handleAsk_resolved fetch uuid st data Hq Hres)
        as (st1 & Hst1 & Hl & _).
      by rewrite Hst1.
    + destruct (handleAsk_thrown fetch uuid st m Hq Hres)
        as (st1 & Hst1 & Hl & _).
      by rewrite Hst1.
  - apply askMentor_failure.
  - intros m Hres.
    destruct (handleAsk_thrown fetch uuid st m Hq Hres)
      as (st1 & Hst1 & _ & Hc & _ & He).
    by rewrite Hst1.
Qed.

(** C4 for a backend that answers 500. *)
Lemma failed_call_sets_error_and_loading_is_cleared_witness :
  loading (handleAsk failing_fetch (js "t1") state_hi).1 = false ∧
  chat (handleAsk failing_fetch (js "t1") state_hi).1 = [] ∧
  errorText (handleAsk failing_fetch (js "t1") state_hi).1
    = Some (js "Something went wrong while calling the mentor API.").
Proof.
  destruct (failed_call_sets_error_and_loading_is_cleared
              failing_fetch (js "t1") state_hi) as (Hl & Hf & Ht);
    [reflexivity|].
  destruct Hf as [m Hm].
  { right. by exists 500, [], (inl []). }
  destruct (Ht m Hm) as (Hc & He & _).
  split; [exact Hl|]. split; [exact Hc | exact He].
Defined.

(** C7 and C10 rest on what a call that changes [chat] has done. *)
Lemma handleAsk_appends fetch uuid st :
  chat (handleAsk fetch uuid st).1 ≠ chat st →
  truthy (trim (question st)) = true ∧
  ∃ data,
    askMentor (fetch (ask_params st)) = Resolved data ∧
    chat (handleAsk fetch uuid st).1 = chat st ++
      [ {| turn_id := uuid; turn_question := question st;
           turn_code := or_null (code st);
           turn_errorMsg := or_null (errorMsg st);
           turn_skill := skill st;
           turn_response :=
             {| tldr := tldr data; explanation := [];
                steps := steps data; fixed_code := fixed_code data;
                diff := diff data; context_used := context_used data;
                conversation_id := conversation_id data |} |} ].
Proof.
  intros Hne. destruct (truthy (trim (question st))) eqn:Hq.
  - split; [done|].
    destruct (askMentor (fetch (ask_params st))) as [data|m] eqn:Hres.
    + destruct (handleAsk_resolved fetch uuid st data Hq Hres)
        as (st1 & Hst1 & _ & Hc & _).
      exists data. by rewrite Hst1.
    + destruct (handleAsk_thrown fetch uuid st m Hq Hres)
        as (st1 & Hst1 & _ & Hc & _).
      rewrite Hst1 in Hne. done.
  - by rewrite handleAsk_blank in Hne.
Qed.

(** C7 as stated fails: the turn stores the text as typed, blanks
    included. *)
Lemma appended_question_is_not_trimmed :
  ∃ t, chat (handleAsk sample_fetch (js "t1") state_padded_question).1 = [t] ∧
       turn_question t = js " hi " ∧
       trim (question state_padded_question) = js "hi" ∧
       turn_question t ≠ trim (question state_padded_question).
Proof. eexists. vm_compute. by repeat split. Qed.

(** C7, as the code has it. A call that appends a turn appends exactly
    one, whose question is the text exactly as submitted; that text is
    not empty, and neither is its trimmed form. *)
Theorem appended_question_is_the_submitted_text
    (fetch : AskParams → FetchResult) (uuid : list N) (st : State) :
  chat (handleAsk fetch uuid st).1 ≠ chat st →
  ∃ t, chat (handleAsk fetch uuid st).1 = chat st ++ [t] ∧
       turn_question t = question st ∧
       turn_question t ≠ [] ∧
       trim (turn_question t) ≠ [].
Proof.
  intros Hne.
  destruct (handleAsk_appends fetch uuid st Hne) as (Hq & data & _ & Hc).
  eexists. split; [exact Hc|]. simpl. split; [done|].
  split; [by apply trim_nonempty|].
  intros Ht. by rewrite Ht in Hq.
Qed.

(** C7 (amended) for the question ["hi"]. *)
Lemma appended_question_is_the_submitted_text_witness :
  ∃ t, chat (handleAsk sample_fetch (js "t1") state_hi).1 = [] ++ [t] ∧
       turn_question t = js "hi" ∧
       turn_question t ≠ [] ∧
       trim (turn_question t) ≠ [].
Proof.
  apply (appended_question_is_the_submitted_text sample_fetch (js "t1")
           state_hi).
  vm_compute. discriminate.
Defined.

(** C10. The request of a call that issues one carries [null] for an
    empty code snippet or error message and the text itself otherwise.
    When the call resolves it appends one turn, and that turn (the only
    one a call can append) has the field absent in the first case and
    set to the text in the second. *)
Theorem empty_snippets_are_sent_as_null
    (fetch : AskParams → FetchResult) (uuid : list N) (st : State)
    (p : AskParams) :
  Post p ∈ (handleAsk fetch uuid st).2 →
  p_code_snippet p = (if decide (code st = []) then None else Some (code st)) ∧
  p_error_message p
    = (if decide (errorMsg st = []) then None else Some (errorMsg st)) ∧
  (∀ data, askMentor (fetch (ask_params st)) = Resolved data →
     ∃ t, chat (handleAsk fetch uuid st).1 = chat st ++ [t] ∧
          turn_code t
            = (if decide (code st = []) then None else Some (code st)) ∧
          turn_errorMsg t
            = (if decide (errorMsg st = []) then None
               else Some (errorMsg st))) ∧
  ∀ t, chat (handleAsk fetch uuid st).1 = chat st ++ [t] →
       turn_code t
         = (if decide (code st = []) then None else Some (code st)) ∧
       turn_errorMsg t
         = (if decide (errorMsg st = []) then None else Some (errorMsg st)).
Proof.
  assert (Hor : ∀ s : list N,
             or_null s = if decide (s = []) then None else Some s).
  { intros [|c s]; reflexivity. }
  intros Hp.
  assert (Hpar : p = ask_params st).
  { destruct (truthy (trim (question st))) eqn:Hq.
    - destruct (askMentor (fetch (ask_params st))) as [data|m] eqn:Hres.
      + destruct (handleAsk_resolved fetch uuid st data Hq Hres)
          as (st1 & Hst1 & _).
        rewrite Hst1 in Hp. simpl in Hp.
        apply elem_of_cons in Hp as [[= ->]|Hp]; [done|].
        apply elem_of_cons in Hp as [[=]|Hp]. by apply elem_of_nil in Hp.
      + destruct (handleAsk_thrown fetch uuid st m Hq Hres)
          as (st1 & Hst1 & _).
        rewrite Hst1 in Hp. simpl in Hp.
        apply elem_of_cons in Hp as [[= ->]|Hp]; [done|].
        apply elem_of_cons in Hp as [[=]|Hp]. by apply elem_of_nil in Hp.
    - rewrite handleAsk_blank in Hp by done. by apply elem_of_nil in Hp. }
  subst p. simpl. rewrite <- !Hor. split; [done|]. split; [done|].
  split.
  { intros data Hres.
    assert (Hq : truthy (trim (question st)) = true).
    { destruct (truthy (trim (question st))) eqn:Hq; [done|].
      rewrite handleAsk_blank in Hp by done. by apply elem_of_nil in Hp. }
    destruct (handleAsk_resolved fetch uuid st data Hq Hres)
      as (st1 & Hst1 & _ & Hc & _).
    rewrite Hst1. cbn [fst]. eexists. split; [exact Hc|]. by split. }
  intros t Ht.
  destruct (handleAsk_appends fetch uuid st) as (_ & data & _ & Hc).
  { rewrite Ht. intros Heq. apply (f_equal length) in Heq.
    rewrite length_app in Heq. simpl in Heq. lia. }
  rewrite Hc in Ht. apply app_inv_head in Ht. injection Ht as <-. done.
Qed.

(** C10 for a call with some code and no error message. *)
Lemma empty_snippets_are_sent_as_null_witness :
  p_code_snippet (ask_params state_with_code) = Some (js "x = 1") ∧
  p_error_message (ask_params state_with_code) = None ∧
  ∃ t, chat (handleAsk sample_fetch (js "t1") state_with_code).1 = [] ++ [t] ∧
       turn_code t = Some (js "x = 1") ∧
       turn_errorMsg t = None.
Proof.
  destruct (empty_snippets_are_sent_as_null sample_fetch (js "t1")
              state_with_code (ask_params state_with_code))
    as (Hc & He & Ht & _).
  - vm_compute. left.
  - split; [exact Hc|]. split; [exact He|].
    exact (Ht sample_response eq_refl).
Defined.

(** ** [handleNewConversation] *)

(** C5 as stated fails: an opened panel stays open. *)
Lemma new_conversation_leaves_panels_open :
  showCodeInput state_panel_open = true ∧
  showCodeInput (handleNewConversation (js "c1") 0%Z state_panel_open)
    ≠ false.
Proof. vm_compute. by split. Qed.

(** C5, as the code has it. Whatever the active session holds, after
    [handleNewConversation] the remote id is [null] (in the state and in
    its storage slot), there are no active turns, the question, code and
    error-message inputs are empty and the error is cleared. The two
    panel toggles keep their values. *)
Theorem new_conversation_resets_session
    (uuid : list N) (now : Z) (st : State) :
  conversationId (handleNewConversation uuid now st) = None ∧
  stored_conversationId (handleNewConversation uuid now st) = None ∧
  chat (handleNewConversation uuid now st) = [] ∧
  question (handleNewConversation uuid now st) = [] ∧
  code (handleNewConversation uuid now st) = [] ∧
  errorMsg (handleNewConversation uuid now st) = [] ∧
  errorText (handleNewConversation uuid now st) = None ∧
  showCodeInput (handleNewConversation uuid now st) = showCodeInput st ∧
  showErrorInput (handleNewConversation uuid now st) = showErrorInput st.
Proof.
  unfold handleNewConversation.
  destruct (chat st) as [|firstTurn rest]; simpl; by repeat split.
Qed.

(** C8. With at least one active turn, [handleNewConversation] prepends
    a conversation whose title is ["New conversation"] when the first
    question is blank after trimming, the trimmed question when that has
    between 1 and 60 code units, and its first 57 code units followed by
    ["..."] when it has more than 60. *)
Theorem new_conversation_title
    (uuid : list N) (now : Z) (st : State)
    (first : ChatTurn) (rest : list ChatTurn) :
  chat st = first :: rest →
  ∃ conv,
    conversations (handleNewConversation uuid now st)
      = conv :: conversations st ∧
    (trim (turn_question first) = [] →
       conv_title conv = js "New conversation") ∧
    (trim (turn_question first) ≠ [] →
     (length (trim (turn_question first)) ≤ 60)%nat →
       conv_title conv = trim (turn_question first)) ∧
    ((60 < length (trim (turn_question first)))%nat →
       conv_title conv = slice0 (trim (turn_question first)) 57 ++ js "...").
Proof.
  intros Hchat. unfold handleNewConversation. rewrite Hchat.
  eexists. split; [reflexivity|]. cbn [conv_title].
  split; [|split].
  - intros ->. reflexivity.
  - generalize (trim (turn_question first)). intros q Hne Hlen.
    rewrite !(bool_decide_eq_true_2 (0 < length q)%nat)
      by (destruct q; simpl; [done|lia]).
    rewrite bool_decide_eq_false_2 by lia. done.
  - generalize (trim (turn_question first)). intros q Hlen.
    rewrite !(bool_decide_eq_true_2 (0 < length q)%nat) by lia.
    rewrite bool_decide_eq_true_2 by lia. done.
Qed.

(** C8 for a first question of 61 code units. *)
Lemma new_conversation_title_witness :
  ∃ conv,
    conversations
      (handleNewConversation (js "c1") 0%Z
         (setChat (λ _, [sample_turn long_question]) state_hi))
      = [conv] ∧
    conv_title conv = slice0 long_question 57 ++ js "...".
Proof.
  destruct (new_conversation_title (js "c1") 0%Z
              (setChat (λ _, [sample_turn long_question]) state_hi)
              (sample_turn long_question) [] eq_refl)
    as (conv & Hc & _ & _ & Hlong).
  exists conv. split; [exact Hc|].
  apply Hlong. vm_compute. lia.
Defined.

(** ** [handleDeleteConversation] *)

(** The guard of the clearing branch tests the truthiness of the active
    remote id. When the session was loaded from a saved conversation
    whose remote id is the empty string, deleting that conversation
    leaves the active turns in place, although the comment in the
    handler says that deleting the conversation being viewed clears the
    UI. *)
Lemma delete_with_empty_remote_id_keeps_session :
  conv_conversationId conv_empty_remote ≠ None ∧
  conv_conversationId conv_empty_remote
    = conversationId
        (handleLoadConversation conv_empty_remote
           (initial_state None [conv_empty_remote])) ∧
  chat (handleDeleteConversation conv_empty_remote
          (handleLoadConversation conv_empty_remote
             (initial_state None [conv_empty_remote])))
    = [sample_turn (js "q")].
Proof. vm_compute. by repeat split. Qed.

(** C9 as stated fails: deleting the conversation the session is bound
    to clears the turns, but a panel that was open stays open. *)
Lemma delete_leaves_panels_open :
  conv_conversationId conv_bound ≠ None ∧
  conv_conversationId conv_bound
    = conversationId
        (setShowCodeInput true
           (handleLoadConversation conv_bound
              (initial_state None [conv_bound]))) ∧
  chat (handleDeleteConversation conv_bound
          (setShowCodeInput true
             (handleLoadConversation conv_bound
                (initial_state None [conv_bound])))) = [] ∧
  showCodeInput
    (handleDeleteConversation conv_bound
       (setShowCodeInput true
          (handleLoadConversation conv_bound
             (initial_state None [conv_bound])))) ≠ false.
Proof. vm_compute. by repeat split. Qed.

(** C9, as the code has it. [handleDeleteConversation conv] keeps
    exactly the stored conversations whose id differs from [conv]'s.
    When [conv]'s remote id is a non-empty string equal to the active
    remote id, the remote id (state and storage slot), the active turns,
    the question, code and error-message inputs and the error are
    cleared, and the two panels keep their state. When [conv]'s remote
    id differs from the active one, or the active one is [null], nothing
    but the stored conversations changes. *)
Theorem delete_conversation_effect
    (conv : SavedConversation ChatTurn) (st : State) :
  conversations (handleDeleteConversation conv st)
    = filter (λ c, conv_id c ≠ conv_id conv) (conversations st) ∧
  (∀ c, c ∈ conversations (handleDeleteConversation conv st) →
        conv_id c ≠ conv_id conv) ∧
  (truthy_opt (conv_conversationId conv) = true →
   conv_conversationId conv = conversationId st →
     conversationId (handleDeleteConversation conv st) = None ∧
     stored_conversationId (handleDeleteConversation conv st) = None ∧
     chat (handleDeleteConversation conv st) = [] ∧
     question (handleDeleteConversation conv st) = [] ∧
     code (handleDeleteConversation conv st) = [] ∧
     errorMsg (handleDeleteConversation conv st) = [] ∧
     errorText (handleDeleteConversation conv st) = None ∧
     showCodeInput (handleDeleteConversation conv st) = showCodeInput st ∧
     showErrorInput (handleDeleteConversation conv st)
       = showErrorInput st) ∧
  (conv_conversationId conv ≠ conversationId st ∨ conversationId st = None →
     handleDeleteConversation conv st
       = setConversations
           (λ prev, filter (λ c, conv_id c ≠ conv_id conv) prev) st).
Proof.
  assert (Hconvs : conversations (handleDeleteConversation conv st)
             = filter (λ c, conv_id c ≠ conv_id conv) (conversations st)).
  { unfold handleDeleteConversation.
    by destruct (truthy_opt (conversationId st)
                 && bool_decide (conv_conversationId conv = conversationId st)). }
  split; [exact Hconvs|]. split; [|split].
  - intros c. rewrite Hconvs. by intros [? _]%list_elem_of_filter.
  - intros Ht Heq. unfold handleDeleteConversation.
    rewrite <- Heq, Ht, bool_decide_eq_true_2 by done.
    by repeat split.
  - intros Hn. unfold handleDeleteConversation.
    destruct (truthy_opt (conversationId st)) eqn:Ht; [|done].
    case_bool_decide as Heq; [|done].
    destruct Hn as [Hne|Hnone]; [done|]. by rewrite Hnone in Ht.
Qed.

(** C9 (amended): deleting the conversation the session was loaded
    from, bound to ["abc123"]. *)
Lemma delete_conversation_effect_witness :
  chat (handleDeleteConversation conv_bound
          (handleLoadConversation conv_bound
             (initial_state None [conv_bound; conv_empty_remote]))) = [] ∧
  conversations
    (handleDeleteConversation conv_bound
       (handleLoadConversation conv_bound
          (initial_state None [conv_bound; conv_empty_remote])))
    = [conv_empty_remote].
Proof.
  destruct (delete_conversation_effect conv_bound
              (handleLoadConversation conv_bound
                 (initial_state None [conv_bound; conv_empty_remote])))
    as (Hc & _ & Hclear & _).
  destruct Hclear as (_ & _ & Hchat & _); [reflexivity..|].
  split; [exact Hchat|]. rewrite Hc. vm_compute. reflexivity.
Defined.

(** ** Checks on small inputs *)

Example trim_strips_both_ends :
  trim (js "  My Chat  ") = js "My Chat" ∧ trim (js "   ") = [].
Proof. vm_compute. by split. Qed.

Example reveal_hello :
  (run_interval 10 (streamExplanation (js "hello") (js "t1")) state_hi).2
  = [js "he"; js "hell"; js "hello"].
Proof. vm_compute. reflexivity. Qed.

Example reveal_empty_text :
  (run_interval 10 (streamExplanation [] (js "t1")) state_hi).2 = [[]].
Proof. vm_compute. reflexivity. Qed.

Example askMentor_status_message :
  askMentor (failing_fetch (ask_params state_hi))
  = Thrown (js "Request failed with status 500").
Proof. vm_compute. reflexivity. Qed.

(** * Further properties *)

(** ** [trim] *)

Lemma rev_reverse {A} (l : list A) : rev l = reverse l.
Proof. by rewrite rev_alt. Qed.

Lemma trimStart_split s :
  ∃ w, s = w ++ trimStart s ∧ Forall (λ c, is_ws c = true) w.
Proof.
  induction s as [|c s (w & Hs & Hw)]; [by exists []|].
  simpl. destruct (is_ws c) eqn:Hc.
  - exists (c :: w). split; [by rewrite <- app_comm_cons, <- Hs|].
    by constructor.
  - by exists [].
Qed.

Lemma trimStart_head s c : head (trimStart s) = Some c → is_ws c = false.
Proof.
  induction s as [|c0 s IH]; [done|].
  simpl. destruct (is_ws c0) eqn:Hc; [done|]. by intros [= <-].
Qed.

Lemma trimStart_fix s :
  (∀ c, head s = Some c → is_ws c = false) → trimStart s = s.
Proof.
  destruct s as [|c s]; [done|]. intros H. simpl. by rewrite (H c).
Qed.

Lemma trimStart_blank s :
  Forall (λ c, is_ws c = true) s → trimStart s = [].
Proof. induction 1 as [|c s Hc _ IH]; [done|]. simpl. by rewrite Hc. Qed.

Lemma trimEnd_split s :
  ∃ w, s = trimEnd s ++ w ∧ Forall (λ c, is_ws c = true) w.
Proof.
  destruct (trimStart_split (rev s)) as (w & Hs & Hw).
  exists (rev w). split.
  - unfold trimEnd. rewrite <- rev_app_distr, <- Hs. by rewrite rev_involutive.
  - rewrite rev_reverse. by apply Forall_reverse.
Qed.

Lemma trimEnd_last s c : last (trimEnd s) = Some c → is_ws c = false.
Proof.
  unfold trimEnd. rewrite rev_reverse, last_reverse. apply trimStart_head.
Qed.

Lemma trimEnd_fix s :
  (∀ c, last s = Some c → is_ws c = false) → trimEnd s = s.
Proof.
  intros H. unfold trimEnd. rewrite trimStart_fix; [apply rev_involutive|].
  intros c. rewrite rev_reverse, head_reverse. apply H.
Qed.

Lemma trimEnd_head s c :
  (∀ c, head s = Some c → is_ws c = false) →
  head (trimEnd s) = Some c → is_ws c = false.
Proof.
  intros Hs Hc. destruct (trimEnd_split s) as (w & Heq & _).
  apply Hs. rewrite Heq. by destruct (trimEnd s).
Qed.

(** The result of [trim] neither starts nor ends with a blank. *)
Lemma trim_head s c : head (trim s) = Some c → is_ws c = false.
Proof. apply trimEnd_head, trimStart_head. Qed.

Lemma trim_last s c : last (trim s) = Some c → is_ws c = false.
Proof. apply trimEnd_last. Qed.

Lemma trim_fix s :
  (∀ c, head s = Some c → is_ws c = false) →
  (∀ c, last s = Some c → is_ws c = false) →
  trim s = s.
Proof.
  intros Hh Hl. unfold trim. rewrite (trimStart_fix s Hh). by apply trimEnd_fix.
Qed.

Lemma trim_idem s : trim (trim s) = trim s.
Proof. apply trim_fix; [apply trim_head | apply trim_last]. Qed.

(** [trim] gives the empty string exactly on strings of blanks. *)
Lemma trim_blank_iff s :
  trim s = [] ↔ Forall (λ c, is_ws c = true) s.
Proof.
  split.
  - intros He. destruct (trimStart_split s) as (w1 & H1 & Hw1).
    destruct (trimEnd_split (trimStart s)) as (w2 & H2 & Hw2).
    unfold trim in He. rewrite He in H2. simpl in H2.
    rewrite H1, H2. by apply Forall_app.
  - intros Hall. unfold trim. by rewrite (trimStart_blank s Hall).
Qed.

Lemma truthy_trim_iff s :
  truthy (trim s) = true ↔ Exists (λ c, is_ws c = false) s.
Proof.
  split.
  - intros Ht.
    destruct (decide (Forall (λ c, is_ws c = true) s)) as [Hall|Hn].
    + apply trim_blank_iff in Hall. by rewrite Hall in Ht.
    + apply not_Forall_Exists in Hn; [|apply _].
      eapply Exists_impl; [exact Hn|].
      intros c Hc. simpl in Hc. by destruct (is_ws c).
  - intros Hex. destruct (trim s) eqn:He; [|done].
    apply trim_blank_iff in He.
    apply Exists_exists in Hex as (c & Hin & Hc).
    rewrite Forall_forall in He. specialize (He c Hin). congruence.
Qed.

(** ** [askMentor] *)

(** X17. [askMentor] resolves exactly when the response has its [ok] flag
    set and a JSON body, and then with that body. A response without
    the flag always throws, with a message that is never empty: the body
    text when there is one, the status line otherwise. *)
Theorem askMentor_outcomes (res : FetchResult) :
  (∀ data, askMentor res = Resolved data ↔
           ∃ status text, res = FetchResponse true status text (inr data)) ∧
  (∀ status text body,
     res = FetchResponse false status text body →
     ∃ m, askMentor res = Thrown m ∧ m ≠ [] ∧
          (text ≠ [] → m = text) ∧
          (text = [] →
           m = js "Request failed with status " ++ decimal status)).
Proof.
  split.
  - intros data. split.
    + destruct res as [m|[] status text [m|d]]; simpl; try done.
      intros [= ->]. by exists status, text.
    + by intros (status & text & ->).
  - intros status text body ->. simpl.
    destruct text as [|c text]; simpl; eexists; (split; [reflexivity|]);
      by repeat split.
Qed.

(** ** More on [handleAsk] *)

(** X1. A question made of blanks only (or empty) is dropped: no
    request, no effect, the state is returned as it was. With one
    non-blank code unit the call posts one request, first of all its
    effects, whose question is the text as typed. *)
Theorem ask_is_dropped_iff_question_is_blank
    (fetch : AskParams → FetchResult) (uuid : list N) (st : State) :
  (Forall (λ c, is_ws c = true) (question st) ↔
   handleAsk fetch uuid st = (st, [])) ∧
  (Exists (λ c, is_ws c = false) (question st) →
   ∃ effects,
     (handleAsk fetch uuid st).2 = Post (ask_params st) :: effects ∧
     (∀ p, Post p ∈ effects → False) ∧
     p_question (ask_params st) = question st).
Proof.
  assert (Hsent : truthy (trim (question st)) = true →
    ∃ effects,
      (handleAsk fetch uuid st).2 = Post (ask_params st) :: effects ∧
      (∀ p, Post p ∈ effects → False)).
  { intros Hq.
    destruct (askMentor (fetch (ask_params st))) as [data|m] eqn:Hres.
    - destruct (handleAsk_resolved fetch uuid st data Hq Hres)
        as (st1 & -> & _).
      eexists. split; [reflexivity|].
      intros p [[=]|Hp%elem_of_nil]%elem_of_cons. done.
    - destruct (handleAsk_thrown fetch uuid st m Hq Hres)
        as (st1 & -> & _).
      eexists. split; [reflexivity|].
      intros p [[=]|Hp%elem_of_nil]%elem_of_cons. done. }
  split.
  - split.
    + intros Hall. apply handleAsk_blank.
      apply (proj2 (trim_blank_iff (question st))) in Hall. by rewrite Hall.
    + intros Heq. apply trim_blank_iff.
      destruct (trim (question st)) as [|c t] eqn:Ht; [done|].
      destruct Hsent as (effects & He & _); [done|].
      by rewrite Heq in He.
  - intros Hex%truthy_trim_iff.
    destruct (Hsent Hex) as (effects & He & Hno). by exists effects.
Qed.

(** X1 for the question ["hi"]. *)
Lemma ask_is_dropped_iff_question_is_blank_witness :
  ∃ effects,
    (handleAsk sample_fetch (js "t1") state_hi).2
      = Post (ask_params state_hi) :: effects.
Proof.
  destruct (ask_is_dropped_iff_question_is_blank sample_fetch (js "t1")
              state_hi) as [_ H].
  destruct H as (effects & He & _).
  - apply Exists_cons_hd. reflexivity.
  - by exists effects.
Defined.

(** X2. After a successful call the three inputs are empty, both panels
    are closed and an earlier error is gone. After a failed call the
    inputs, the panels, the remote id and its storage slot are what they
    were, so the question can be sent again. Neither outcome touches the
    stored conversations or the skill level. *)
Theorem ask_clears_inputs_on_success_only
    (fetch : AskParams → FetchResult) (uuid : list N) (st : State) :
  truthy (trim (question st)) = true →
  (∀ data, askMentor (fetch (ask_params st)) = Resolved data →
     question (handleAsk fetch uuid st).1 = [] ∧
     code (handleAsk fetch uuid st).1 = [] ∧
     errorMsg (handleAsk fetch uuid st).1 = [] ∧
     showCodeInput (handleAsk fetch uuid st).1 = false ∧
     showErrorInput (handleAsk fetch uuid st).1 = false ∧
     errorText (handleAsk fetch uuid st).1 = None) ∧
  (∀ m, askMentor (fetch (ask_params st)) = Thrown m →
     question (handleAsk fetch uuid st).1 = question st ∧
     code (handleAsk fetch uuid st).1 = code st ∧
     errorMsg (handleAsk fetch uuid st).1 = errorMsg st ∧
     showCodeInput (handleAsk fetch uuid st).1 = showCodeInput st ∧
     showErrorInput (handleAsk fetch uuid st).1 = showErrorInput st ∧
     conversationId (handleAsk fetch uuid st).1 = conversationId st ∧
     stored_conversationId (handleAsk fetch uuid st).1
       = stored_conversationId st) ∧
  conversations (handleAsk fetch uuid st).1 = conversations st ∧
  skill (handleAsk fetch uuid st).1 = skill st.
Proof.
  intros Hq. unfold handleAsk. rewrite Hq. simpl.
  destruct (askMentor (fetch (ask_params st))) as [data|m]; simpl.
  - destruct (negb (truthy_opt (conversationId st))
              && truthy_opt (conversation_id data)); simpl;
      (split; [by intros|]); (split; [by intros|]); done.
  - (split; [by intros|]); (split; [by intros|]); done.
Qed.

(** X2 for a backend that answers 500. *)
Lemma ask_clears_inputs_on_success_only_witness :
  question (handleAsk failing_fetch (js "t1") state_with_code).1 = js "hi" ∧
  code (handleAsk failing_fetch (js "t1") state_with_code).1 = js "x = 1".
Proof.
  destruct (ask_clears_inputs_on_success_only failing_fetch (js "t1")
              state_with_code eq_refl) as (_ & Hfail & _).
  destruct (Hfail (js "Request failed with status 500") eq_refl)
    as (Hq & Hc & _).
  split; [exact Hq | exact Hc].
Defined.

(** ** [handleKeyDown] *)

(** X16. Only Enter without Shift is intercepted. It submits, exactly as
    [handleAsk] does, when no request is pending and the question is not
    blank; in every other case the handler leaves the state alone and
    produces no effect, so no request is ever sent while [loading]. *)
Theorem key_down_submits_only_on_plain_enter
    (fetch : AskParams → FetchResult) (uuid : list N)
    (e : KeyboardEvent) (st : State) :
  ((handleKeyDown fetch uuid e st).2 = true ↔
   ev_key e = js "Enter" ∧ ev_shiftKey e = false) ∧
  (ev_key e = js "Enter" → ev_shiftKey e = false → loading st = false →
   (handleKeyDown fetch uuid e st).1 = handleAsk fetch uuid st) ∧
  (ev_key e ≠ js "Enter" ∨ ev_shiftKey e = true ∨ loading st = true →
   (handleKeyDown fetch uuid e st).1 = (st, [])).
Proof.
  unfold handleKeyDown. split; [|split].
  - case_bool_decide as Hk; destruct (ev_shiftKey e); simpl;
      try (split; [done | by intros [? ?]]).
    destruct (negb (loading st) && truthy (trim (question st))); by split.
  - intros Hk Hs Hl. rewrite bool_decide_eq_true_2, Hs, Hl by done. simpl.
    destruct (truthy (trim (question st))) eqn:Hq; [done|].
    by rewrite handleAsk_blank.
  - intros [Hk|[Hs|Hl]].
    + by rewrite bool_decide_eq_false_2.
    + rewrite Hs, andb_false_r. done.
    + rewrite Hl. simpl. by destruct (_ && _).
Qed.

(** X16: Shift+Enter on a page with a question typed. *)
Lemma key_down_submits_only_on_plain_enter_witness :
  (handleKeyDown sample_fetch (js "t1")
     {| ev_key := js "Enter"; ev_shiftKey := true |} state_hi).1
  = (state_hi, []).
Proof.
  destruct (key_down_submits_only_on_plain_enter sample_fetch (js "t1")
              {| ev_key := js "Enter"; ev_shiftKey := true |} state_hi)
    as (_ & _ & H).
  apply H. right. left. reflexivity.
Defined.

(** ** More on the timer *)

Lemma with_explanation_same t :
  with_explanation (explanation (turn_response t)) t = t.
Proof. by destruct t as [? ? ? ? ? []]. Qed.

Lemma with_explanation_twice v w t :
  with_explanation v (with_explanation w t) = with_explanation v t.
Proof. reflexivity. Qed.

Lemma setChat_same s : setChat (λ _, chat s) s = s.
Proof. by destruct s. Qed.

Lemma same_but_chat_trans s1 s2 s3 :
  same_but_chat s1 s2 → same_but_chat s2 s3 → same_but_chat s1 s3.
Proof. unfold same_but_chat. intros H12 H23. rewrite H23, H12. reflexivity. Qed.

(** The chat after the timer has run, from the last value it wrote. *)
Lemma run_interval_chat fuel : ∀ iv s,
  same_but_chat s (run_interval fuel iv s).1.2 ∧
  chat (run_interval fuel iv s).1.2 =
    match last (run_interval fuel iv s).2 with
    | None => chat s
    | Some v => (λ t, if decide (turn_id t = turnId iv)
                      then with_explanation v t else t) <$> chat s
    end.
Proof.
  induction fuel as [|fuel IH]; intros iv s.
  { simpl. split; [|done]. unfold same_but_chat. by rewrite setChat_same. }
  cbn [run_interval]. destruct (registered iv).
  2:{ simpl. split; [|done]. unfold same_but_chat. by rewrite setChat_same. }
  destruct (tick iv s) as [iv1 s1] eqn:Ht.
  assert (Hiv1 : turnId iv1 = turnId iv) by (by injection Ht as <- _).
  assert (Hs1 : s1 = (tick iv s).2) by (by rewrite Ht).
  specialize (IH iv1 s1).
  destruct (run_interval fuel iv1 s1) as [[iv2 s2] em] eqn:Hr.
  cbn [fst snd] in *. destruct IH as [Hsame Hchat]. split.
  - eapply same_but_chat_trans; [|exact Hsame].
    rewrite Hs1. unfold same_but_chat. reflexivity.
  - rewrite Hchat, Hiv1. clear Hchat Hsame Hr.
    assert (Hc1 : chat s1 =
              (λ t, if decide (turn_id t = turnId iv)
                    then with_explanation (visible iv (index iv1)) t
                    else t) <$> chat s).
    { rewrite Hs1. injection Ht as <- _. reflexivity. }
    destruct em as [|v em]; [exact Hc1|].
    change (last (visible iv (index iv1) :: v :: em)) with (last (v :: em)).
    destruct (last (v :: em)) as [w|] eqn:Hl.
    + rewrite Hc1, <- list_fmap_compose. apply list_fmap_ext.
      intros _ t _. simpl.
      destruct (decide (turn_id t = turnId iv)) as [Heq|Hne]; simpl.
      * by rewrite decide_True.
      * by rewrite decide_False.
    + by apply last_None in Hl.
Qed.

(** X4. However many times the reveal timer fires, it changes nothing in
    the state but [chat]; there, every turn carrying the timer's id gets
    the last value written as its explanation, and every other turn, and
    every other field of those turns, is left as it was. *)
Theorem reveal_touches_only_the_explanation
    (fuel : nat) (iv : Interval) (st : State) :
  same_but_chat st (run_interval fuel iv st).1.2 ∧
  conversations (run_interval fuel iv st).1.2 = conversations st ∧
  conversationId (run_interval fuel iv st).1.2 = conversationId st ∧
  length (chat (run_interval fuel iv st).1.2) = length (chat st) ∧
  ∃ f, chat (run_interval fuel iv st).1.2 = f <$> chat st ∧
       ∀ t, (turn_id t ≠ turnId iv → f t = t) ∧
            with_explanation (explanation (turn_response t)) (f t) = t.
Proof.
  destruct (run_interval_chat fuel iv st) as [Hsame Hchat].
  split; [exact Hsame|]. split; [by rewrite Hsame|]. split; [by rewrite Hsame|].
  assert (Hf : ∃ f, chat (run_interval fuel iv st).1.2 = f <$> chat st ∧
       ∀ t, (turn_id t ≠ turnId iv → f t = t) ∧
            with_explanation (explanation (turn_response t)) (f t) = t).
  { rewrite Hchat. destruct (last (run_interval fuel iv st).2) as [v|].
    - eexists. split; [reflexivity|]. intros t. simpl.
      destruct (decide (turn_id t = turnId iv)) as [Heq|Hne]; split.
      + by intros Hne.
      + rewrite with_explanation_twice. apply with_explanation_same.
      + done.
      + apply with_explanation_same.
    - exists (λ t, t). split; [by rewrite list_fmap_id|].
      intros t. split; [done|]. apply with_explanation_same. }
  split; [|exact Hf].
  destruct Hf as (f & -> & _). by rewrite length_fmap.
Qed.

(** X5. Once [handleNewConversation] has run, a reveal timer that is
    still registered changes nothing at all: the snapshot just saved
    holds the active turns as they were at that moment, with whatever
    part of the explanation had been revealed, and stays that way. *)
Theorem reveal_after_reset_changes_nothing
    (fuel : nat) (iv : Interval) (uuid : list N) (now : Z) (st : State) :
  (run_interval fuel iv (handleNewConversation uuid now st)).1.2
    = handleNewConversation uuid now st ∧
  ∀ first rest, chat st = first :: rest →
    ∃ conv,
      conversations
        (run_interval fuel iv (handleNewConversation uuid now st)).1.2
        = conv :: conversations st ∧
      conv_turns conv = first :: rest.
Proof.
  assert (Hfix : (run_interval fuel iv (handleNewConversation uuid now st)).1.2
            = handleNewConversation uuid now st).
  { destruct (run_interval_chat fuel iv (handleNewConversation uuid now st))
      as [Hsame Hchat].
    assert (Hnil : chat (handleNewConversation uuid now st) = []).
    { unfold handleNewConversation. by destruct (chat st). }
    rewrite Hnil in Hchat.
    rewrite Hsame.
    replace (chat (run_interval fuel iv
                     (handleNewConversation uuid now st)).1.2)
      with (chat (handleNewConversation uuid now st)).
    - apply setChat_same.
    - rewrite Hnil, Hchat. by destruct (last _). }
  split; [exact Hfix|].
  intros first rest Hc. rewrite Hfix.
  unfold handleNewConversation. rewrite Hc. eexists. split; reflexivity.
Qed.

(** X5 for a session holding one turn. *)
Lemma reveal_after_reset_changes_nothing_witness :
  ∃ conv,
    conversations
      (run_interval 5 (streamExplanation (js "hello") (js "t1"))
         (handleNewConversation (js "c1") 0%Z
            (setChat (λ _, [sample_turn (js "q")]) state_hi))).1.2
      = conv :: [] ∧
    conv_turns conv = [sample_turn (js "q")].
Proof.
  destruct (reveal_after_reset_changes_nothing 5
              (streamExplanation (js "hello") (js "t1")) (js "c1") 0%Z
              (setChat (λ _, [sample_turn (js "q")]) state_hi)) as [_ H].
  apply (H (sample_turn (js "q")) []). reflexivity.
Defined.

(** The reveal of [text] is over after finitely many ticks, and the last
    value it wrote is [text]. *)
Lemma reveal_last_value text turn st :
  ∃ n, ∀ extra,
    last (run_interval (n + extra) (streamExplanation text turn) st).2
      = Some text.
Proof.
  set (d := ((length text - 1) / 2)%nat).
  assert (Hd1 : (length text ≤ 2 * S d)%nat).
  { unfold d. pose proof (Nat.div_mod_eq (length text - 1) 2).
    pose proof (Nat.mod_upper_bound (length text - 1) 2). lia. }
  assert (Hd2 : (d = 0 ∨ 2 * d < length text)%nat).
  { unfold d. pose proof (Nat.div_mod_eq (length text - 1) 2).
    pose proof (Nat.mod_upper_bound (length text - 1) 2). lia. }
  exists (S d). intros extra.
  destruct (run_interval_ticks d (streamExplanation text turn) st extra)
    as (st' & Hrun & _); [done|exact Hd1|exact Hd2|].
  rewrite Hrun. cbn [snd]. unfold streamExplanation.
  cbn [fullText turnId index Nat.add].
  rewrite fmap_last, seq_S, last_snoc. simpl. f_equal.
  apply take_ge. lia.
Qed.

(** X3. A successful call followed by the reveal it starts: when the
    id drawn for the turn is not yet used in the chat, the chat ends up
    as the earlier turns, untouched, followed by one turn that carries
    the inputs as submitted and the response exactly as the API gave
    it. *)
Theorem ask_then_reveal_shows_the_response
    (fetch : AskParams → FetchResult) (uuid : list N) (st : State)
    (data : AskResponse) :
  truthy (trim (question st)) = true →
  askMentor (fetch (ask_params st)) = Resolved data →
  uuid ∉ turn_id <$> chat st →
  (handleAsk fetch uuid st).2
    = [Post (ask_params st);
       StartInterval (streamExplanation (explanation data) uuid)] ∧
  ∃ n, ∀ extra,
    chat (run_interval (n + extra)
            (streamExplanation (explanation data) uuid)
            (handleAsk fetch uuid st).1).1.2
    = chat st ++
      [ {| turn_id := uuid; turn_question := question st;
           turn_code := or_null (code st);
           turn_errorMsg := or_null (errorMsg st);
           turn_skill := skill st; turn_response := data |} ].
Proof.
  intros Hq Hres Hfresh.
  destruct (handleAsk_resolved fetch uuid st data Hq Hres)
    as (st1 & Hst1 & _ & Hchat1 & _).
  rewrite Hst1. cbn [fst snd]. split; [done|].
  destruct (reveal_last_value (explanation data) uuid st1) as [n Hn].
  exists n. intros extra.
  destruct (run_interval_chat (n + extra)
              (streamExplanation (explanation data) uuid) st1) as [_ Hc].
  rewrite Hc, Hn, Hchat1, fmap_app. cbn [turnId streamExplanation].
  f_equal.
  - rewrite <- (list_fmap_id (chat st)) at 2. apply list_fmap_ext.
    intros i t Ht. simpl. rewrite decide_False; [done|].
    intros Heq. apply Hfresh. rewrite <- Heq.
    apply list_elem_of_fmap. exists t. split; [done|].
    by eapply list_elem_of_lookup_2.
  - simpl. rewrite decide_True by done. by destruct data.
Qed.

(** X3 for the sample backend. *)
Lemma ask_then_reveal_shows_the_response_witness :
  ∃ n, ∀ extra,
    chat (run_interval (n + extra)
            (streamExplanation (js "hello") (js "t1"))
            (handleAsk sample_fetch (js "t1") state_hi).1).1.2
    = [] ++
      [ {| turn_id := js "t1"; turn_question := js "hi";
           turn_code := None; turn_errorMsg := None;
           turn_skill := beginner; turn_response := sample_response |} ].
Proof.
  destruct (ask_then_reveal_shows_the_response sample_fetch (js "t1")
              state_hi sample_response) as [_ H];
    [reflexivity | reflexivity | by intros ?%elem_of_nil | exact H].
Defined.

(** ** Turns within one session *)

Lemma apply_event_chat_grows st e :
  (with_explanation [] <$> chat st)
    `prefix_of` (with_explanation [] <$> chat (apply_event st e)).
Proof.
  destruct e as [v|v|v| | |v|fetch uuid|iv]; try done.
  - cbn [apply_event].
    destruct (truthy (trim (question st))) eqn:Hq.
    + destruct (askMentor (fetch (ask_params st))) as [data|m] eqn:Hres.
      * destruct (handleAsk_resolved fetch uuid st data Hq Hres)
          as (st1 & -> & _ & Hc & _).
        cbn [fst]. rewrite Hc, fmap_app. by apply prefix_app_r.
      * destruct (handleAsk_thrown fetch uuid st m Hq Hres)
          as (st1 & -> & _ & Hc & _).
        cbn [fst]. by rewrite Hc.
    + by rewrite handleAsk_blank.
  - cbn [apply_event tick snd setChat chat].
    rewrite <- list_fmap_compose.
    erewrite list_fmap_ext; [reflexivity|].
    intros i t _. simpl. by destruct (decide (turn_id t = turnId iv)).
Qed.

(** X6. No event of a session removes, reorders or rewrites a turn:
    leaving the explanation text aside, the chat before any sequence of
    edits, submissions and timer ticks is a prefix of the chat after. *)
Theorem session_chat_is_append_only
    (st : State) (events : list SessionEvent) :
  (with_explanation [] <$> chat st)
    `prefix_of` (with_explanation [] <$> chat (run_session st events)).
Proof.
  revert st. induction events as [|e events IH]; intros st; [done|].
  unfold run_session in *. simpl.
  etrans; [apply (apply_event_chat_grows st e) | apply IH].
Qed.

(** Reduction of the state setters and projections, innermost first. *)
Ltac state_cbv :=
  cbv [setQuestion setCode setErrorMsg setSkill setShowCodeInput
       setShowErrorInput setConversationId setChat setConversations
       setSidebarOpen setLoading setErrorText storeConversationId
       setEditingConversationId setEditTitleValue
       question code errorMsg skill showCodeInput showErrorInput
       editingConversationId editTitleValue conversationId chat
       conversations sidebarOpen loading errorText stored_conversationId].

(** ** More on [handleNewConversation] *)

(** The title computed from a first question [q]. *)
Lemma derived_title_trimmed q :
  let baseTitle := if bool_decide (0 < length (trim q))%nat
                   then trim q else js "New conversation" in
  let title := if bool_decide (60 < length baseTitle)%nat
               then slice0 baseTitle 57 ++ js "..." else baseTitle in
  trim title = title ∧ title ≠ [] ∧ (length title ≤ 60)%nat.
Proof.
  cbv zeta. pose proof (trim_head q) as Hh. pose proof (trim_idem q) as Hi.
  revert Hh Hi. generalize (trim q). intros b Hh Hi.
  destruct (decide (0 < length b)%nat) as [Hne|Hbl].
  - rewrite !(bool_decide_eq_true_2 (0 < length b)%nat) by done.
    case_bool_decide as Hlong.
    + split; [|split].
      * apply trim_fix.
        -- intros c. destruct b as [|c0 b]; [by apply Nat.lt_irrefl in Hne|].
           simpl. intros [= <-]. by apply Hh.
        -- intros c. rewrite last_app. simpl. by intros [= <-].
      * intros Hnil. apply (f_equal length) in Hnil.
        rewrite length_app in Hnil. simpl in Hnil. lia.
      * rewrite length_app. unfold slice0. rewrite length_take.
        change (length (js "...")) with 3%nat. lia.
    + split; [exact Hi|]. split; [|lia].
      intros Hnil. rewrite Hnil in Hne. simpl in Hne. lia.
  - rewrite !(bool_decide_eq_false_2 (0 < length b)%nat) by done.
    rewrite bool_decide_eq_false_2 by (vm_compute; lia).
    split; [by vm_compute|]. split; [done|]. vm_compute. lia.
Qed.

(** X7. The title of a snapshot is never empty, never longer than 60
    code units, and carries no blank at either end, so that it is not
    blank. *)
Theorem snapshot_title_is_short_and_trimmed
    (uuid : list N) (now : Z) (st : State)
    (first : ChatTurn) (rest : list ChatTurn) :
  chat st = first :: rest →
  ∃ conv,
    conversations (handleNewConversation uuid now st)
      = conv :: conversations st ∧
    conv_title conv ≠ [] ∧
    (length (conv_title conv) ≤ 60)%nat ∧
    trim (conv_title conv) = conv_title conv.
Proof.
  intros Hchat. unfold handleNewConversation. rewrite Hchat.
  eexists. split; [reflexivity|]. cbn [conv_title].
  destruct (derived_title_trimmed (turn_question first)) as (Ht & Hne & Hl).
  done.
Qed.

(** X7 for a first question of 61 code units. *)
Lemma snapshot_title_is_short_and_trimmed_witness :
  ∃ conv,
    conversations
      (handleNewConversation (js "c1") 0%Z
         (setChat (λ _, [sample_turn long_question]) state_hi))
      = [conv] ∧
    (length (conv_title conv) ≤ 60)%nat.
Proof.
  destruct (snapshot_title_is_short_and_trimmed (js "c1") 0%Z
              (setChat (λ _, [sample_turn long_question]) state_hi)
              (sample_turn long_question) [] eq_refl)
    as (conv & Hc & _ & Hl & _).
  exists conv. split; [exact Hc | exact Hl].
Defined.

(** X8. An empty session is never saved. A session with turns is saved
    in front of the stored conversations, and opening that snapshot
    again gives back the turns and the remote id the session had,
    without changing the store. *)
Theorem snapshot_then_load_restores_session
    (uuid : list N) (now : Z) (st : State) :
  (conversations (handleNewConversation uuid now st) = conversations st ↔
   chat st = []) ∧
  (chat st ≠ [] →
   ∃ conv,
     conversations (handleNewConversation uuid now st)
       = conv :: conversations st ∧
     conv_id conv = uuid ∧ conv_createdAt conv = num_of_Z now ∧
     chat (handleLoadConversation conv
             (handleNewConversation uuid now st)) = chat st ∧
     conversationId (handleLoadConversation conv
                       (handleNewConversation uuid now st))
       = conversationId st ∧
     conversations (handleLoadConversation conv
                      (handleNewConversation uuid now st))
       = conversations (handleNewConversation uuid now st)).
Proof.
  destruct st as [q c e sk sc se ed et cid ch cvs sb ld err sto].
  unfold handleNewConversation, handleLoadConversation. cbn [chat].
  destruct ch as [|first rest].
  - split; [done|]. done.
  - split.
    + split; [|done]. state_cbv.
      intros Heq. apply (f_equal length) in Heq. simpl in Heq. lia.
    + intros _. eexists. split; [state_cbv; reflexivity|].
      cbn [conv_conversationId conv_turns conv_id conv_createdAt].
      destruct (truthy_opt _); state_cbv; by repeat split.
Qed.

(** X8 for a session holding one turn. *)
Lemma snapshot_then_load_restores_session_witness :
  ∃ conv,
    conversations
      (handleNewConversation (js "c1") 0%Z
         (setChat (λ _, [sample_turn (js "q")]) state_bound))
      = [conv] ∧
    chat (handleLoadConversation conv
            (handleNewConversation (js "c1") 0%Z
               (setChat (λ _, [sample_turn (js "q")]) state_bound)))
      = [sample_turn (js "q")] ∧
    conversationId
      (handleLoadConversation conv
         (handleNewConversation (js "c1") 0%Z
            (setChat (λ _, [sample_turn (js "q")]) state_bound)))
      = Some (js "abc123").
Proof.
  destruct (snapshot_then_load_restores_session (js "c1") 0%Z
              (setChat (λ _, [sample_turn (js "q")]) state_bound))
    as [_ H].
  destruct H as (conv & Hc & _ & _ & Hchat & Hid & _); [done|].
  exists conv. split; [exact Hc|]. split; [exact Hchat | exact Hid].
Defined.

(** X9. Deleting the snapshot just taken gives back the store as it was
    before, provided the id drawn for the snapshot was not already the
    id of a stored conversation. *)
Theorem delete_undoes_snapshot
    (uuid : list N) (now : Z) (st : State)
    (first : ChatTurn) (rest : list ChatTurn) :
  chat st = first :: rest →
  uuid ∉ conv_id <$> conversations st →
  ∃ conv,
    conversations (handleNewConversation uuid now st)
      = conv :: conversations st ∧
    conversations (handleDeleteConversation conv
                     (handleNewConversation uuid now st))
      = conversations st.
Proof.
  intros Hchat Hfresh. unfold handleNewConversation. rewrite Hchat.
  eexists. split; [reflexivity|].
  unfold handleDeleteConversation.
  cbn [conversationId setConversations setConversationId
       storeConversationId setChat setQuestion setCode setErrorMsg
       setErrorText truthy_opt andb conversations conv_id].
  rewrite filter_cons_False by (by intros Hne).
  induction (conversations st) as [|c l IH]; [done|].
  rewrite fmap_cons in Hfresh. apply not_elem_of_cons in Hfresh as [Hc Hl].
  rewrite filter_cons_True by done. f_equal. by apply IH.
Qed.

(** X9 for a session holding one turn and a store of two. *)
Lemma delete_undoes_snapshot_witness :
  ∃ conv,
    conversations
      (handleNewConversation (js "c9") 0%Z
         (setChat (λ _, [sample_turn (js "q")])
            (initial_state None [conv_bound; conv_empty_remote])))
      = conv :: [conv_bound; conv_empty_remote] ∧
    conversations
      (handleDeleteConversation conv
         (handleNewConversation (js "c9") 0%Z
            (setChat (λ _, [sample_turn (js "q")])
               (initial_state None [conv_bound; conv_empty_remote]))))
      = [conv_bound; conv_empty_remote].
Proof.
  apply (delete_undoes_snapshot (js "c9") 0%Z
           (setChat (λ _, [sample_turn (js "q")])
              (initial_state None [conv_bound; conv_empty_remote]))
           (sample_turn (js "q")) []); [reflexivity|].
  vm_compute. intros H.
  repeat (apply elem_of_cons in H as [H|H]; [discriminate|]).
  by apply elem_of_nil in H.
Defined.

(** ** Renaming *)

Lemma with_title_same {T} (c : SavedConversation T) :
  with_title (conv_title c) c = c.
Proof. by destruct c. Qed.

Lemma NoDup_fmap_eq {A B} (f : A → B) (l : list A) x y :
  NoDup (f <$> l) → x ∈ l → y ∈ l → f x = f y → x = y.
Proof.
  induction l as [|a l IH]; [by intros _ ?%elem_of_nil|].
  rewrite fmap_cons. intros [Ha Hl]%NoDup_cons.
  intros [->|Hx]%elem_of_cons [->|Hy]%elem_of_cons Heq; [done| | |by apply IH].
  - destruct Ha. rewrite Heq. apply list_elem_of_fmap. by exists y.
  - destruct Ha. rewrite <- Heq. apply list_elem_of_fmap. by exists x.
Qed.

(** The title [saveConversationTitle] writes. *)
Lemma saved_title_trimmed v :
  let t := if negb (truthy (trim v)) then js "Untitled conversation"
           else trim v in
  t ≠ [] ∧ trim t = t.
Proof.
  cbv zeta. destruct (trim v) as [|c b] eqn:Hv; cbn [truthy negb].
  - split; [done | by vm_compute].
  - split; [done|]. rewrite <- Hv. apply trim_idem.
Qed.

Lemma saveConversationTitle_conversations id st :
  conversations (saveConversationTitle id st)
  = (λ c, if decide (conv_id c = id)
          then with_title
                 (if negb (truthy (trim (editTitleValue st)))
                  then js "Untitled conversation"
                  else trim (editTitleValue st)) c
          else c) <$> conversations st.
Proof.
  unfold saveConversationTitle.
  by destruct (negb (truthy (trim (editTitleValue st)))).
Qed.

(** X12. Renaming gives every stored conversation with the given id the
    same new title and changes nothing else in it; the ids, the order
    and the other conversations stay as they are. The new title is the
    typed text without the blanks around it, or ["Untitled
    conversation"] when nothing else was typed, so it is never blank.
    The editor is closed and the active session is not touched. *)
Theorem rename_sets_a_trimmed_title (id : list N) (st : State) :
  ∃ t,
    (trim (editTitleValue st) = [] → t = js "Untitled conversation") ∧
    (trim (editTitleValue st) ≠ [] → t = trim (editTitleValue st)) ∧
    t ≠ [] ∧ trim t = t ∧
    conversations (saveConversationTitle id st)
      = (λ c, if decide (conv_id c = id) then with_title t c else c)
          <$> conversations st ∧
    conv_id <$> conversations (saveConversationTitle id st)
      = conv_id <$> conversations st ∧
    editingConversationId (saveConversationTitle id st) = None ∧
    editTitleValue (saveConversationTitle id st) = [] ∧
    chat (saveConversationTitle id st) = chat st ∧
    conversationId (saveConversationTitle id st) = conversationId st.
Proof.
  destruct (saved_title_trimmed (editTitleValue st)) as [Hne Htrim].
  exists (if negb (truthy (trim (editTitleValue st)))
          then js "Untitled conversation" else trim (editTitleValue st)).
  split; [by intros ->|]. split; [by destruct (trim (editTitleValue st))|].
  split; [exact Hne|]. split; [exact Htrim|].
  assert (Hc : conversations (saveConversationTitle id st)
    = (λ c, if decide (conv_id c = id)
            then with_title
                   (if negb (truthy (trim (editTitleValue st)))
                    then js "Untitled conversation"
                    else trim (editTitleValue st)) c
            else c) <$> conversations st).
  { unfold saveConversationTitle.
    by destruct (negb (truthy (trim (editTitleValue st)))). }
  split; [exact Hc|]. split.
  { rewrite Hc, <- list_fmap_compose. apply list_fmap_ext.
    intros _ c _. simpl. by destruct (decide (conv_id c = id)). }
  unfold saveConversationTitle.
  by destruct (negb (truthy (trim (editTitleValue st)))).
Qed.

(** X12 for the title ["  My Chat  "] typed over conversation ["c1"]. *)
Lemma rename_sets_a_trimmed_title_witness :
  conv_title <$>
    conversations
      (saveConversationTitle (js "c1")
         (setEditTitleValue (js "  My Chat  ")
            (initial_state None [conv_bound; conv_empty_remote])))
  = [js "My Chat"; js "Old"].
Proof.
  destruct (rename_sets_a_trimmed_title (js "c1")
              (setEditTitleValue (js "  My Chat  ")
                 (initial_state None [conv_bound; conv_empty_remote])))
    as (t & _ & Ht & _ & _ & Hc & _).
  rewrite Hc, Ht; [|by vm_compute]. by vm_compute.
Defined.

(** X13. Opening the title editor on a stored conversation and leaving
    it without typing changes nothing in the store, when the ids are
    pairwise distinct and the stored title has no blank at either end. *)
Theorem unedited_rename_changes_nothing
    (conv : SavedConversation ChatTurn) (st : State) :
  conv ∈ conversations st →
  NoDup (conv_id <$> conversations st) →
  conv_title conv ≠ [] →
  trim (conv_title conv) = conv_title conv →
  conversations
    (saveConversationTitle (conv_id conv)
       (startEditConversationTitle conv st))
  = conversations st.
Proof.
  intros Hin Hnd Hne Htrim.
  rewrite saveConversationTitle_conversations.
  change (editTitleValue (startEditConversationTitle conv st))
    with (conv_title conv).
  change (conversations (startEditConversationTitle conv st))
    with (conversations st).
  rewrite Htrim.
  replace (negb (truthy (conv_title conv))) with false
    by (by destruct (conv_title conv)).
  rewrite <- (list_fmap_id (conversations st)) at 2.
  apply list_fmap_ext. intros i c Hi. simpl.
  destruct (decide (conv_id c = conv_id conv)) as [Heq|]; [|done].
  assert (c = conv) as ->.
  { eapply (NoDup_fmap_eq conv_id); eauto.
    by eapply list_elem_of_lookup_2. }
  apply with_title_same.
Qed.

(** X13 on a store of two conversations. *)
Lemma unedited_rename_changes_nothing_witness :
  conversations
    (saveConversationTitle (conv_id conv_bound)
       (startEditConversationTitle conv_bound
          (initial_state None [conv_bound; conv_empty_remote])))
  = [conv_bound; conv_empty_remote].
Proof.
  apply (unedited_rename_changes_nothing conv_bound
           (initial_state None [conv_bound; conv_empty_remote])).
  - left.
  - apply (bool_decide_unpack
             (NoDup (conv_id <$> [conv_bound; conv_empty_remote]))).
    by vm_compute.
  - discriminate.
  - by vm_compute.
Defined.

(** ** Invariants of the page *)

Lemma handleAsk_conversations fetch uuid st :
  conversations (handleAsk fetch uuid st).1 = conversations st.
Proof.
  unfold handleAsk. destruct (negb (truthy (trim (question st)))); [done|].
  destruct (askMentor (fetch (ask_params st))) as [data|m]; [|done].
  by destruct (negb (truthy_opt (conversationId st))
               && truthy_opt (conversation_id data)).
Qed.

Lemma handleAsk_slot fetch uuid st :
  slot_in_sync st → slot_in_sync (handleAsk fetch uuid st).1.
Proof.
  destruct st as [q c e sk sc se ed et cid ch cvs sb ld err sto].
  unfold slot_in_sync, handleAsk.
  cbn [conversationId stored_conversationId question]. intros Hs.
  destruct (negb (truthy (trim q))); [done|].
  destruct (askMentor _) as [data|m]; [state_cbv|by state_cbv].
  destruct (truthy_opt cid) eqn:Hb; cbn [negb andb fst];
    [by rewrite Hb|].
  destruct (truthy_opt (conversation_id data)) eqn:Hd;
    [by rewrite Hd | by rewrite Hb].
Qed.

Lemma handleKeyDown_state fetch uuid e st :
  (handleKeyDown fetch uuid e st).1.1 = (handleAsk fetch uuid st).1 ∨
  (handleKeyDown fetch uuid e st).1.1 = st.
Proof.
  unfold handleKeyDown.
  destruct (bool_decide (ev_key e = js "Enter") && negb (ev_shiftKey e));
    [|by right].
  destruct (negb (loading st) && truthy (trim (question st)));
    [by left | by right].
Qed.

Lemma apply_app_event_slot st e :
  slot_in_sync st → slot_in_sync (apply_app_event st e).
Proof.
  intros Hs. destruct e as [e|fetch uuid e|uuid now|conv|conv|conv|v| |id|v];
    cbn [apply_app_event];
    [ | | | | | exact Hs | exact Hs | exact Hs | | exact Hs].
  - destruct e; try exact Hs. by apply handleAsk_slot.
  - destruct (handleKeyDown_state fetch uuid e st) as [-> | ->];
      [by apply handleAsk_slot | done].
  - destruct st as [q c e sk sc se ed et cid ch cvs sb ld err sto].
    unfold slot_in_sync, handleNewConversation. cbn [chat].
    by destruct ch; state_cbv.
  - destruct st as [q c e sk sc se ed et cid ch cvs sb ld err sto].
    unfold slot_in_sync, handleLoadConversation.
    by destruct (truthy_opt (conv_conversationId conv)) eqn:Hc; state_cbv;
      rewrite Hc.
  - destruct st as [q c e sk sc se ed et cid ch cvs sb ld err sto].
    unfold slot_in_sync, handleDeleteConversation in *.
    cbn [conversationId stored_conversationId] in *.
    by destruct (truthy_opt cid && bool_decide (conv_conversationId conv = cid));
      state_cbv.
  - destruct st as [q c e sk sc se ed et cid ch cvs sb ld err sto].
    unfold slot_in_sync, saveConversationTitle, cancelEditConversationTitle
      in *.
    cbn [conversationId stored_conversationId editTitleValue] in *.
    by destruct (negb (truthy (trim et))); state_cbv.
Qed.

(** X10. The ["conversationId"] storage slot follows the active remote
    id through every event of the page: it holds that id when it is a
    non-empty string and is empty otherwise. A page that starts from a
    slot that is absent or holds a non-empty id is in that situation,
    and so stays in it. *)
Theorem storage_slot_follows_remote_id
    (st : State) (events : list AppEvent) :
  (slot_in_sync st → slot_in_sync (run_app st events)) ∧
  (∀ stored convs, stored ≠ Some [] →
     slot_in_sync (run_app (initial_state stored convs) events)).
Proof.
  assert (Hrun : ∀ events s, slot_in_sync s → slot_in_sync (run_app s events)).
  { clear. intros events. induction events as [|e events IH]; intros s Hs;
      [done|].
    unfold run_app in *. simpl. by apply IH, apply_app_event_slot. }
  split; [apply Hrun|].
  intros stored convs Hne. apply Hrun.
  unfold slot_in_sync. simpl. by destruct stored as [[|c s]|].
Qed.

(** X10 for a page that asks, saves the session and opens it again. *)
Lemma storage_slot_follows_remote_id_witness :
  slot_in_sync
    (run_app state_hi
       [InSession (Ask sample_fetch (js "t1"));
        NewConversation (js "c1") 0%Z;
        LoadConversation conv_bound]).
Proof.
  apply (storage_slot_follows_remote_id state_hi). reflexivity.
Defined.

Lemma store_ok_cons {T} (c : SavedConversation T) convs :
  conv_id c ≠ [] → trim (conv_title c) ≠ [] →
  conv_id c ∉ conv_id <$> convs →
  store_ok convs → store_ok (c :: convs).
Proof.
  intros Hid Ht Hnew [Hnd Hall]. split.
  - rewrite fmap_cons. by constructor.
  - by constructor.
Qed.

Lemma store_ok_filter {T} (P : SavedConversation T → Prop)
    `{∀ c, Decision (P c)} convs :
  store_ok convs → store_ok (filter P convs).
Proof.
  intros [Hnd Hall]. split.
  - eapply sublist_NoDup; [exact Hnd|].
    apply fmap_sublist, sublist_filter.
  - apply Forall_forall. intros c [_ Hc]%list_elem_of_filter.
    rewrite Forall_forall in Hall. by apply Hall.
Qed.

Lemma store_ok_retitle {T} (id t : list N)
    (convs : list (SavedConversation T)) :
  trim t ≠ [] → store_ok convs →
  store_ok ((λ c, if decide (conv_id c = id) then with_title t c else c)
              <$> convs).
Proof.
  intros Ht [Hnd Hall]. split.
  - rewrite <- list_fmap_compose.
    erewrite list_fmap_ext; [exact Hnd|].
    intros _ c _. simpl. by destruct (decide (conv_id c = id)).
  - apply Forall_fmap. eapply Forall_impl; [exact Hall|].
    intros c [Hid Hc]. simpl. by destruct (decide (conv_id c = id)).
Qed.

Lemma handleLoadConversation_conversations conv st :
  conversations (handleLoadConversation conv st) = conversations st.
Proof.
  unfold handleLoadConversation.
  by destruct (truthy_opt (conv_conversationId conv)).
Qed.

Lemma apply_app_event_store st e :
  event_fresh st e → store_ok (conversations st) →
  store_ok (conversations (apply_app_event st e)).
Proof.
  intros Hf Hok.
  destruct e as [e|fetch uuid e|uuid now|conv|conv|conv|v| |id|v];
    cbn [apply_app_event];
    [ | | | by rewrite handleLoadConversation_conversations
      | | exact Hok | exact Hok | exact Hok | | exact Hok].
  - destruct e; try exact Hok. cbn [apply_event].
    by rewrite handleAsk_conversations.
  - destruct (handleKeyDown_state fetch uuid e st) as [-> | ->];
      [by rewrite handleAsk_conversations | done].
  - destruct Hf as [Hne Hnew]. unfold handleNewConversation.
    destruct (chat st) as [|first rest]; [done|].
    destruct (derived_title_trimmed (turn_question first)) as (Ht & Hn & _).
    apply store_ok_cons; try done. cbn [conv_title]. by rewrite Ht.
  - assert (Hc : conversations (handleDeleteConversation conv st)
             = filter (λ c, conv_id c ≠ conv_id conv) (conversations st)).
    { unfold handleDeleteConversation.
      by destruct (truthy_opt (conversationId st)
                   && bool_decide (conv_conversationId conv
                                   = conversationId st)). }
    rewrite Hc. by apply store_ok_filter.
  - rewrite saveConversationTitle_conversations.
    apply store_ok_retitle; [|done].
    destruct (saved_title_trimmed (editTitleValue st)) as [Hne Ht].
    by rewrite Ht.
Qed.

(** X11. Distinct non-empty ids and titles that are not blank are kept
    by every event of the page, as long as each id drawn for a snapshot
    is non-empty and new to the store. *)
Theorem store_stays_well_formed (events : list AppEvent) (st : State) :
  events_fresh st events →
  store_ok (conversations st) →
  store_ok (conversations (run_app st events)).
Proof.
  revert st. induction events as [|e events IH]; intros st Hf Hok; [done|].
  destruct Hf as [He Hrest]. unfold run_app in *. simpl.
  apply IH; [done|]. by apply apply_app_event_store.
Qed.

(** X11 for a page that asks, saves the session, renames the snapshot to
    blanks and deletes an older conversation. *)
Lemma store_stays_well_formed_witness :
  store_ok
    (conversations
       (run_app (setQuestion (js "hi") (initial_state None [conv_bound]))
          [InSession (Ask sample_fetch (js "t1"));
           NewConversation (js "c2") 0%Z;
           EditTitle (js "   ");
           SaveTitle (js "c2");
           DeleteConversation conv_bound])).
Proof.
  apply store_stays_well_formed.
  - cbn [events_fresh event_fresh]. split; [done|]. split; [|done].
    split; [done|]. vm_compute.
    intros [H|H%elem_of_nil]%elem_of_cons; [discriminate | done].
  - split.
    + apply (bool_decide_unpack (NoDup (conv_id <$> [conv_bound]))).
      by vm_compute.
    + repeat constructor; by vm_compute.
Defined.

(** ** Storing and loading again *)

Section StoreAndLoad.

Context {T : Type} (enc : T → json).
Context (JSON_parse : list N → option json) (randomUUID : nat → list N)
        (Date_now : nat → Z).

(** The keys of a stored conversation, read back. *)
Lemma stored_fields (v1 v2 v3 v4 v5 : json) :
  let fields := [ (js "id", v1); (js "conversationId", v2);
                  (js "title", v3); (js "createdAt", v4);
                  (js "turns", v5) ] in
  lookup_field (js "id") fields = Some v1 ∧
  lookup_field (js "conversationId") fields = Some v2 ∧
  lookup_field (js "conversation_id") fields = None ∧
  lookup_field (js "title") fields = Some v3 ∧
  lookup_field (js "createdAt") fields = Some v4 ∧
  lookup_field (js "turns") fields = Some v5.
Proof. vm_compute. by repeat split. Qed.

(** A stored conversation with a non-empty id not seen so far, a title
    that is not blank and a finite creation time passes the sanitation
    unchanged and draws no new id. *)
Lemma sanitize_stored i (c : SavedConversation T) seen k :
  conv_id c ≠ [] → conv_id c ∉ seen → trim (conv_title c) ≠ [] →
  is_finite (conv_createdAt c) →
  sanitize randomUUID Date_now i (conv_to_json enc c) (seen, k)
  = Some (as_loaded enc c, ({[ conv_id c ]} ∪ seen, k)).
Proof.
  intros Hid Hnew Ht Hfin. unfold sanitize, conv_to_json, get_prop.
  destruct (stored_fields (JStr (conv_id c))
              (match conv_conversationId c with
               | Some s => JStr s | None => JNull end)
              (JStr (conv_title c)) (num_to_json (conv_createdAt c))
              (JArr (enc <$> conv_turns c)))
    as (-> & -> & -> & -> & -> & ->).
  destruct (conv_createdAt c) as [q|neg] eqn:Hq; [|done].
  cbn [num_to_json].
  cbn [mbind option_bind].
  rewrite (bool_decide_eq_true_2 (0 < length (conv_id c))%nat)
    by (destruct (conv_id c); simpl; [done|lia]).
  rewrite (bool_decide_eq_true_2 (0 < length (trim (conv_title c)))%nat)
    by (destruct (trim (conv_title c)); simpl; [done|lia]).
  replace (truthy (conv_id c)) with true by (by destruct (conv_id c)).
  rewrite (bool_decide_eq_false_2 (conv_id c ∈ seen)) by done.
  cbn [negb orb]. unfold as_loaded. rewrite Hq.
  by destruct (conv_conversationId c).
Qed.

Lemma map_records_stored (convs : list (SavedConversation T)) :
  ∀ i seen k,
    store_ok convs →
    Forall (λ c, is_finite (conv_createdAt c)) convs →
    (∀ c, c ∈ convs → conv_id c ∉ seen) →
    map_records randomUUID Date_now i (conv_to_json enc <$> convs) (seen, k)
    = Some (as_loaded enc <$> convs).
Proof.
  induction convs as [|c convs IH]; intros i seen k [Hnd Hall] Hfin Hseen;
    [done|].
  rewrite !fmap_cons in *. rewrite map_records_cons.
  apply NoDup_cons in Hnd as [Hc Hnd].
  apply Forall_cons in Hall as [[Hid Ht] Hall].
  apply Forall_cons in Hfin as [Hf Hfin].
  rewrite sanitize_stored; [|done|apply Hseen; by left|done|done].
  rewrite IH; [done|done|done|].
  intros c' Hc' [Heq%elem_of_singleton|Hin]%elem_of_union.
  - apply Hc. rewrite <- Heq. apply list_elem_of_fmap. by exists c'.
  - apply (Hseen c'); [by right|done].
Qed.

Lemma load_stored raw (convs : list (SavedConversation T)) :
  truthy raw = true →
  JSON_parse raw = Some (conversations_to_json enc convs) →
  store_ok convs →
  Forall (λ c, is_finite (conv_createdAt c)) convs →
  load JSON_parse randomUUID Date_now true (Some raw) = as_loaded enc <$> convs.
Proof.
  intros Hraw Hparse Hok Hfin. unfold load, conversations_to_json in *.
  cbn [negb]. rewrite Hraw, Hparse. cbn [negb].
  rewrite map_records_stored; [done|done|done|].
  by intros c _ ?%elem_of_empty.
Qed.



End StoreAndLoad.

(** X14. Loading what the page stored returns it unchanged (the turns as
    the JSON values they were written as) and in the same order, when
    the stored ids are pairwise distinct and non-empty, no title is
    blank and every creation time is finite; no id is reallocated and no
    title or time is replaced. The stored text is the one [JSON.parse]
    reads back as the value [JSON.stringify] was given. *)
Theorem load_returns_what_was_stored
    {T : Type} (enc : T → json)
    (JSON_parse : list N → option json) (randomUUID : nat → list N)
    (Date_now : nat → Z) (raw : list N)
    (convs : list (SavedConversation T)) :
  truthy raw = true →
  JSON_parse raw = Some (conversations_to_json enc convs) →
  store_ok convs →
  Forall (λ c, is_finite (conv_createdAt c)) convs →
  load JSON_parse randomUUID Date_now true (Some raw) = as_loaded enc <$> convs.
Proof. apply load_stored. Qed.

(** X14 on a store of two conversations. *)
Lemma load_returns_what_was_stored_witness :
  conv_id <$>
    load (parses_to
            (conversations_to_json turn_to_json
               [conv_bound; conv_empty_remote]))
         sample_uuid sample_clock true (Some (js "stored"))
  = [js "c1"; js "c0"].
Proof.
  rewrite (load_returns_what_was_stored turn_to_json
             (parses_to
                (conversations_to_json turn_to_json
                   [conv_bound; conv_empty_remote]))
             sample_uuid sample_clock (js "stored")
             [conv_bound; conv_empty_remote]).
  - reflexivity.
  - reflexivity.
  - reflexivity.
  - split.
    + apply (bool_decide_unpack
               (NoDup (conv_id <$> [conv_bound; conv_empty_remote]))).
      by vm_compute.
    + repeat constructor; by vm_compute.
  - by repeat constructor.
Defined.

(** A creation time that is not finite does not survive: it is written
    as [null], and the next load puts the time of that load in its
    place. *)
Lemma infinite_creation_time_is_replaced :
  conv_createdAt <$>
    load (parses_to
            (conversations_to_json turn_to_json
               [ {| conv_id := js "c1"; conv_conversationId := None;
                    conv_title := js "Old";
                    conv_createdAt := Infinite false;
                    conv_turns := [] |} ]))
         sample_uuid sample_clock true (Some (js "stored"))
  = [num_of_Z (sample_clock 0)].
Proof. by vm_compute. Qed.



(** ** More on [handleDeleteConversation] *)

(** X18. Deleting the same conversation a second time changes nothing
    more. *)
Theorem delete_twice_is_delete_once
    (conv : SavedConversation ChatTurn) (st : State) :
  handleDeleteConversation conv (handleDeleteConversation conv st)
  = handleDeleteConversation conv st.
Proof.
  destruct st as [q c e sk sc se ed et cid ch cvs sb ld err sto].
  assert (Hf : filter (λ c, conv_id c ≠ conv_id conv)
                 (filter (λ c, conv_id c ≠ conv_id conv) cvs)
               = filter (λ c, conv_id c ≠ conv_id conv) cvs).
  { induction cvs as [|c0 l IH]; [done|].
    rewrite (filter_cons _ c0 l).
    destruct (decide (conv_id c0 ≠ conv_id conv)) as [Hc|Hc]; [|done].
    rewrite filter_cons, decide_True by done. by rewrite IH. }
  unfold handleDeleteConversation. cbn [conversationId].
  destruct (truthy_opt cid && bool_decide (conv_conversationId conv = cid))
    eqn:Hcond; state_cbv; cbn [truthy_opt andb]; state_cbv.
  - by rewrite Hf.
  - rewrite Hcond. state_cbv. by rewrite Hf.
Qed.

(** X17 for a 500 response with an empty body. *)
Lemma askMentor_outcomes_witness :
  ∃ m, askMentor (FetchResponse false 500 [] (inl [])) = Thrown m ∧
       m = js "Request failed with status 500".
Proof.
  destruct (askMentor_outcomes (FetchResponse false 500 [] (inl [])))
    as [_ H].
  destruct (H 500 [] (inl []) eq_refl) as (m & Hm & _ & _ & Hs).
  exists m. split; [exact Hm|]. by rewrite (Hs eq_refl).
Defined.

(** * Requests in flight *)

(** Run without anything in between, the two halves of [handleAsk] are
    the handler. *)
Lemma handleAsk_begin_resume fetch uuid st :
  handleAsk fetch uuid st =
  match handleAsk_begin fetch st with
  | None => (st, [])
  | Some (s, p) =>
      ((handleAsk_resume uuid p s).1,
       Post (captured p) :: (handleAsk_resume uuid p s).2)
  end.
Proof.
  unfold handleAsk, handleAsk_begin, handleAsk_resume.
  destruct (negb (truthy (trim (question st)))); [done|].
  cbn [captured outcome].
  destruct (askMentor (fetch (ask_params st))) as [data|m]; [|done].
  cbn [ask_params p_conversation_id p_question p_code_snippet
       p_error_message p_skill_level].
  by destruct (negb (truthy_opt (conversationId st))
               && truthy_opt (conversation_id data)).
Qed.

Lemma handleAsk_begin_facts fetch st s p :
  handleAsk_begin fetch st = Some (s, p) →
  loading s = true ∧ conversationId s = conversationId st ∧
  captured p = ask_params st.
Proof.
  unfold handleAsk_begin.
  destruct (negb (truthy (trim (question st)))); [done|].
  by intros [= <- <-].
Qed.

Lemma handleAsk_resume_id uuid p st :
  (truthy_opt (p_conversation_id (captured p)) = true →
   conversationId (handleAsk_resume uuid p st).1 = conversationId st) ∧
  (conversationId (handleAsk_resume uuid p st).1 ≠ conversationId st →
   truthy_opt (p_conversation_id (captured p)) = false ∧
   ∃ data, outcome p = Resolved data ∧
           truthy_opt (conversation_id data) = true ∧
           conversationId (handleAsk_resume uuid p st).1
             = conversation_id data).
Proof.
  destruct st as [q c e sk sc se ed et cid ch cvs sb ld err sto].
  unfold handleAsk_resume.
  destruct (outcome p) as [data|m]; [|by split].
  destruct (truthy_opt (p_conversation_id (captured p))) eqn:Hc;
    cbn [negb andb].
  - by split.
  - destruct (truthy_opt (conversation_id data)) eqn:Hd; state_cbv;
      cbn [fst]; split; try done.
    intros _. split; [done|]. by exists data.
Qed.

Lemma apply_ui_loading st e : loading (apply_ui st e) = loading st.
Proof.
  destruct st as [q c er sk sc se ed et cid ch cvs sb ld err sto].
  destruct e; cbn [apply_ui]; try reflexivity.
  - unfold handleNewConversation. cbn [chat]. by destruct ch.
  - unfold handleLoadConversation. by destruct (truthy_opt _).
  - unfold handleDeleteConversation. by destruct (_ && _).
  - unfold saveConversationTitle. by destruct (negb _).
Qed.

(** Of the events that are not arrivals, only loading a conversation can
    put a new remote id in place; the others keep it or reset it. *)
Lemma apply_ui_id st e :
  (∃ conv, e = ULoadConversation conv) ∨
  conversationId (apply_ui st e) = conversationId st ∨
  conversationId (apply_ui st e) = None.
Proof.
  destruct st as [q c er sk sc se ed et cid ch cvs sb ld err sto].
  destruct e; cbn [apply_ui]; try (right; left; reflexivity).
  - right. right. unfold handleNewConversation. cbn [chat]. by destruct ch.
  - left. by eexists.
  - right. unfold handleDeleteConversation.
    destruct (_ && _); [by right | by left].
  - right. left. unfold saveConversationTitle. by destruct (negb _).
Qed.

Lemma apply_ui_id_session st e :
  in_session (PUi e) →
  conversationId (apply_ui st e) = conversationId st.
Proof.
  destruct st as [q c er sk sc se ed et cid ch cvs sb ld err sto].
  destruct e; cbn [apply_ui in_session]; try done.
  intros _. unfold saveConversationTitle. by destruct (negb _).
Qed.

Lemma page_submit_cases fetch pg :
  page_submit fetch pg = pg ∨
  ∃ s p, page_submit fetch pg
         = {| page_state := s; in_flight := in_flight pg ++ [p];
              posted := posted pg ++ [captured p] |} ∧
         loading s = true ∧
         conversationId s = conversationId (page_state pg) ∧
         p_conversation_id (captured p) = conversationId (page_state pg).
Proof.
  unfold page_submit.
  destruct (handleAsk_begin fetch (page_state pg)) as [[s p]|] eqn:Hb;
    [|by left].
  right. exists s, p.
  destruct (handleAsk_begin_facts _ _ _ _ Hb) as (Hl & Hid & Hcap).
  split; [done|]. split; [done|]. split; [done|]. by rewrite Hcap.
Qed.

(** A submission goes through only while nothing is loading. *)
Lemma page_step_submits pg e :
  (∀ u, e ≠ PUi u) → (∀ i uuid, e ≠ PArrive i uuid) → (∀ iv, e ≠ PTick iv) →
  page_step pg e = pg ∨
  ∃ fetch, loading (page_state pg) = false ∧
           page_step pg e = page_submit fetch pg.
Proof.
  intros Hu Ha Ht. destruct e as [u|fetch|fetch ev|i uuid|iv];
    try (by destruct (Hu u)); try (by destruct (Ha i uuid));
    try (by destruct (Ht iv)); cbn [page_step].
  - destruct (loading (page_state pg)) eqn:Hl; [by left|].
    destruct (negb (truthy (trim (question (page_state pg)))));
      [by left|].
    right. by exists fetch.
  - destruct (bool_decide (ev_key ev = js "Enter") && negb (ev_shiftKey ev));
      [|by left].
    destruct (loading (page_state pg)) eqn:Hl; [by left|].
    destruct (truthy (trim (question (page_state pg)))); [|by left].
    right. by exists fetch.
Qed.

Lemma tick_frame iv st :
  loading (tick iv st).2 = loading st ∧
  conversationId (tick iv st).2 = conversationId st.
Proof. by split. Qed.

(** One step of the page, for an invariant on the request in flight that
    a fresh submission satisfies and that the step's change of state
    preserves. *)
Lemma page_step_one_in_flight (R : option (list N) → State → Prop) pg e :
  (∀ st, R (conversationId st) st) →
  (∀ c st st', loading st' = loading st →
               conversationId st' = conversationId st → R c st → R c st') →
  (∀ u p, e = PUi u → in_flight pg = [p] →
          R (p_conversation_id (captured p)) (page_state pg) →
          R (p_conversation_id (captured p))
            (apply_ui (page_state pg) u)) →
  one_in_flight R pg → one_in_flight R (page_step pg e).
Proof.
  intros Hnew Hframe Hui Hinv.
  destruct e as [u|fetch|fetch ev|i uuid|iv].
  - cbn [page_step]. destruct Hinv as [Hnil|(p & Hp & Hl & HR)];
      [by left|].
    right. exists p. split; [done|]. split.
    + cbn [with_state page_state]. by rewrite apply_ui_loading.
    + by apply (Hui u p).
  - destruct (page_step_submits pg (PSend fetch)) as [->|(f & Hl & ->)];
      try done.
    destruct (page_submit_cases f pg) as [->|(s & p & -> & Hls & Hid & Hc)];
      [done|].
    destruct Hinv as [Hnil|(p0 & Hp0 & Hl0 & _)]; [|congruence].
    right. exists p. cbn [in_flight page_state]. rewrite Hnil.
    split; [done|]. split; [done|]. rewrite Hc, <- Hid. apply Hnew.
  - destruct (page_step_submits pg (PKeyDown fetch ev))
      as [->|(f & Hl & ->)]; try done.
    destruct (page_submit_cases f pg) as [->|(s & p & -> & Hls & Hid & Hc)];
      [done|].
    destruct Hinv as [Hnil|(p0 & Hp0 & Hl0 & _)]; [|congruence].
    right. exists p. cbn [in_flight page_state]. rewrite Hnil.
    split; [done|]. split; [done|]. rewrite Hc, <- Hid. apply Hnew.
  - cbn [page_step]. unfold page_arrive.
    destruct Hinv as [Hnil|(p & Hp & Hl & HR)].
    + rewrite Hnil. by left.
    + rewrite Hp. destruct i as [|i]; [by left|].
      replace ([p] !! S i) with (@None Pending) by (by destruct i).
      right. by exists p.
  - cbn [page_step]. destruct Hinv as [Hnil|(p & Hp & Hl & HR)];
      [by left|].
    right. exists p. split; [done|]. split; [done|].
    by eapply Hframe; [| |exact HR].
Qed.

Lemma page_step_bound_inv pg e :
  match e with
  | PUi (ULoadConversation _) => in_flight pg = []
  | _ => True
  end →
  one_in_flight bound_if_bound pg →
  one_in_flight bound_if_bound (page_step pg e).
Proof.
  intros Hidle. apply page_step_one_in_flight.
  - intros st Hb. exact Hb.
  - intros c st st' _ Hid. unfold bound_if_bound. by rewrite Hid.
  - intros u p -> Hp HR. unfold bound_if_bound in *.
    destruct (apply_ui_id (page_state pg) u) as [[conv ->]|[->| ->]];
      [congruence|done|done].
Qed.

Lemma run_page_bound_inv events : ∀ pg,
  loads_when_idle pg events →
  one_in_flight bound_if_bound pg →
  one_in_flight bound_if_bound (run_page pg events).
Proof.
  induction events as [|e events IH]; intros pg Hl Hinv; [done|].
  destruct Hl as [He Hl]. unfold run_page in *. simpl.
  apply IH; [done|]. by apply page_step_bound_inv.
Qed.

Lemma page_arrive_keeps_bound_id i uuid pg :
  one_in_flight bound_if_bound pg →
  truthy_opt (conversationId (page_state pg)) = true →
  conversationId (page_state (page_arrive i uuid pg))
  = conversationId (page_state pg).
Proof.
  intros [Hnil|(p & Hp & _ & HR)] Hb; unfold page_arrive.
  - by rewrite Hnil.
  - rewrite Hp. destruct i as [|i]; [|by destruct i].
    cbn [lookup list_lookup page_state].
    by apply handleAsk_resume_id, HR.
Qed.

Lemma page_step_session_inv pg e :
  in_session e →
  one_in_flight same_id pg → one_in_flight same_id (page_step pg e).
Proof.
  intros Hs. apply page_step_one_in_flight.
  - intros st. reflexivity.
  - intros c st st' _ Hid. unfold same_id. by rewrite Hid.
  - intros u p -> Hp HR. unfold same_id in *.
    by rewrite apply_ui_id_session.
Qed.

(** What one event of a session does to the remote id and to the
    requests posted. *)
Lemma page_step_session pg e :
  in_session e → one_in_flight same_id pg →
  (truthy_opt (conversationId (page_state pg)) = true →
   conversationId (page_state (page_step pg e))
   = conversationId (page_state pg)) ∧
  (∀ p, p ∈ posted (page_step pg e) →
        p ∈ posted pg ∨
        p_conversation_id p = conversationId (page_state pg)).
Proof.
  intros Hs Hinv. destruct e as [u|fetch|fetch ev|i uuid|iv].
  - cbn [page_step with_state page_state posted]. split; [|by left].
    intros _. by apply apply_ui_id_session.
  - destruct (page_step_submits pg (PSend fetch)) as [->|(f & _ & ->)];
      try done; [by split; [|left]|].
    destruct (page_submit_cases f pg) as [->|(s & p & -> & _ & Hid & Hc)];
      [by split; [|left]|].
    cbn [page_state posted]. split; [done|].
    intros p' [Hin|Hin]%elem_of_app; [by left|].
    apply list_elem_of_singleton in Hin as ->. by right.
  - destruct (page_step_submits pg (PKeyDown fetch ev))
      as [->|(f & _ & ->)]; try done; [by split; [|left]|].
    destruct (page_submit_cases f pg) as [->|(s & p & -> & _ & Hid & Hc)];
      [by split; [|left]|].
    cbn [page_state posted]. split; [done|].
    intros p' [Hin|Hin]%elem_of_app; [by left|].
    apply list_elem_of_singleton in Hin as ->. by right.
  - cbn [page_step]. unfold page_arrive.
    destruct Hinv as [Hnil|(p & Hp & _ & HR)].
    + rewrite Hnil. by split; [|left].
    + rewrite Hp. destruct i as [|i]; [|by destruct i; (split; [|left])].
      cbn [lookup list_lookup page_state posted]. split; [|by left].
      intros Hb. apply handleAsk_resume_id. unfold same_id in HR.
      by rewrite HR.
  - cbn [page_step with_state page_state posted]. by split; [|left].
Qed.

Lemma run_page_session events : ∀ pg,
  Forall in_session events → one_in_flight same_id pg →
  one_in_flight same_id (run_page pg events) ∧
  (truthy_opt (conversationId (page_state pg)) = true →
   conversationId (page_state (run_page pg events))
   = conversationId (page_state pg) ∧
   ∀ p, p ∈ posted (run_page pg events) →
        p ∈ posted pg ∨
        p_conversation_id p = conversationId (page_state pg)).
Proof.
  induction events as [|e events IH]; intros pg Hs Hinv.
  { split; [done|]. intros _. split; [done|]. by left. }
  apply Forall_cons in Hs as [He Hs]. unfold run_page in *. simpl.
  destruct (page_step_session pg e He Hinv) as [Hid Hposted].
  destruct (IH (page_step pg e) Hs (page_step_session_inv pg e He Hinv))
    as [Hinv' Hrest].
  split; [exact Hinv'|]. intros Hb.
  destruct Hrest as [Hid' Hposted']; [by rewrite Hid|].
  split; [by rewrite Hid', Hid|].
  intros p Hp. destruct (Hposted' p Hp) as [Hin|Heq].
  - by apply Hposted.
  - right. by rewrite Heq, Hid.
Qed.

(** C2, as the code has it. The response to a request binds its
    conversation id only when the remote id captured at the submission
    was [null] or empty and the response carries a non-empty id. From a
    page with no request in flight: within one session (no conversation
    started, loaded or deleted) a remote id that has become a non-empty
    string stays what it is through every later event, arrivals of
    responses included; and whatever else happens on the page, as long
    as no saved conversation is loaded while a request is in flight, no
    arriving response replaces a non-empty remote id. *)
Theorem remote_id_bound_at_most_once
    (st0 : State) (events later : list PageEvent) :
  (Forall in_session events → Forall in_session later →
   truthy_opt (conversationId (page_state (run_page (page_of st0) events)))
     = true →
   conversationId (page_state (run_page (page_of st0) (events ++ later)))
   = conversationId (page_state (run_page (page_of st0) events))) ∧
  (loads_when_idle (page_of st0) events →
   ∀ i uuid,
     truthy_opt (conversationId (page_state (run_page (page_of st0) events)))
       = true →
     conversationId
       (page_state (page_arrive i uuid (run_page (page_of st0) events)))
     = conversationId (page_state (run_page (page_of st0) events))) ∧
  (∀ uuid p st,
     conversationId (handleAsk_resume uuid p st).1 ≠ conversationId st →
     truthy_opt (p_conversation_id (captured p)) = false ∧
     ∃ data, outcome p = Resolved data ∧
             truthy_opt (conversation_id data) = true ∧
             conversationId (handleAsk_resume uuid p st).1
               = conversation_id data).
Proof.
  split; [|split].
  - intros Hs Hl Hb.
    replace (run_page (page_of st0) (events ++ later))
      with (run_page (run_page (page_of st0) events) later)
      by (unfold run_page; by rewrite foldl_app).
    destruct (run_page_session events (page_of st0) Hs) as [Hinv _];
      [by left|].
    by destruct (run_page_session later _ Hl Hinv) as [_ [-> _]].
  - intros Hl i uuid Hb. apply page_arrive_keeps_bound_id; [|done].
    apply run_page_bound_inv; [done | by left].
  - intros uuid p st. apply handleAsk_resume_id.
Qed.

(** C2 as stated fails, in two ways. An empty string is a non-null
    remote id, and the next response replaces it. And a response
    replaces the id of a conversation that was loaded while the request
    was in flight: the handler tests the id it captured when the
    question was submitted. *)
Lemma remote_id_is_rebound :
  (conversationId state_empty_remote_id = Some [] ∧
   conversationId
     (page_state
        (run_page (page_of state_empty_remote_id)
           [PSend sample_fetch; PArrive 0 (js "t1")]))
   = Some (js "abc123")) ∧
  (conversationId
     (page_state
        (run_page (page_of state_hi)
           [PSend other_id_fetch; PUi (ULoadConversation conv_bound)]))
   = Some (js "abc123") ∧
   conversationId
     (page_state
        (run_page (page_of state_hi)
           [PSend other_id_fetch; PUi (ULoadConversation conv_bound);
            PArrive 0 (js "t1")]))
   = Some (js "zzz")).
Proof. vm_compute. by repeat split. Qed.

(** C2 (amended) for a session bound to ["abc123"]: the responses to two
    later questions carry ["zzz"] and do not rebind it. *)
Lemma remote_id_bound_at_most_once_witness :
  conversationId
    (page_state
       (run_page (page_of state_bound)
          ([] ++ [PSend other_id_fetch; PArrive 0 (js "t2");
                  PUi (UEditQuestion (js "more"));
                  PSend other_id_fetch; PArrive 0 (js "t3")])))
  = Some (js "abc123").
Proof.
  destruct (remote_id_bound_at_most_once state_bound []
              [PSend other_id_fetch; PArrive 0 (js "t2");
               PUi (UEditQuestion (js "more"));
               PSend other_id_fetch; PArrive 0 (js "t3")]) as [H _].
  rewrite H; [reflexivity|constructor|by repeat constructor|reflexivity].
Defined.

(** X19. From a page with no request in flight whose remote id is a
    non-empty string, every request posted during the session (edits,
    submissions, arrivals of responses and timer ticks in any order; no
    conversation started, loaded or deleted) carries that id as its
    [conversation_id], and the remote id itself stays what it was. *)
Theorem later_requests_carry_the_bound_id
    (st0 : State) (events : list PageEvent) (p : AskParams) :
  Forall in_session events →
  truthy_opt (conversationId st0) = true →
  p ∈ posted (run_page (page_of st0) events) →
  p_conversation_id p = conversationId st0 ∧
  conversationId (page_state (run_page (page_of st0) events))
  = conversationId st0.
Proof.
  intros Hs Hb Hp.
  destruct (run_page_session events (page_of st0) Hs) as [_ H]; [by left|].
  destruct (H Hb) as [Hid Hposted]. split; [|exact Hid].
  by destruct (Hposted p Hp) as [Hin%elem_of_nil|Heq].
Qed.

(** X19 for a session bound to ["abc123"] that asks twice. *)
Lemma later_requests_carry_the_bound_id_witness :
  posted
    (run_page (page_of state_bound)
       [PSend other_id_fetch; PArrive 0 (js "t2");
        PUi (UEditQuestion (js "more")); PSend other_id_fetch])
  = [ask_params state_bound;
     ask_params (setQuestion (js "more") state_bound)] ∧
  p_conversation_id (ask_params (setQuestion (js "more") state_bound))
  = Some (js "abc123").
Proof.
  split; [by vm_compute|].
  apply (later_requests_carry_the_bound_id state_bound
           [PSend other_id_fetch; PArrive 0 (js "t2");
            PUi (UEditQuestion (js "more")); PSend other_id_fetch]).
  - by repeat constructor.
  - reflexivity.
  - vm_compute. right. left.
Defined.
